(** * PrivateLottery: a shallow embedding of the lottery contract

    The contract [PrivateLottery] (Solidity ^0.8.24) is embedded as
    functions in a state-and-failure monad over a [World]: the contract's
    storage variables, the ether it holds, the events it has emitted and
    the value transfers it has made.  A failing [require], a checked
    arithmetic panic or a reverting library call aborts the body; the
    transaction wrapper [transact] then keeps the world of before the
    call, which is how the EVM treats a reverted transaction.

    Integers are [Z] with the compiler's overflow checks written out,
    mappings are [gmap]s read with the default value of Solidity,
    dynamic arrays are lists that grow at the end.

    What lies outside the contract is a parameter of the development:
    the hash function, the FHE library (input proof check and permission
    grants) and the accounts that receive ether.  A payment hands
    control to its recipient, which runs a program of its own: it may
    call back into the contract any number of times, choosing each
    call by what the calls before it did, and in the end accepts the
    ether or refuses it.  The contract has no re-entrancy guard, and
    both payouts of a draw come before its event and its reset.  Calls
    nest up to a depth, beyond which a call fails, as on the EVM. *)

From Stdlib Require Import ZArith Lia.
From Stdlib.Strings Require Import Byte.
From stdpp Require Import gmap strings list.

Open Scope Z_scope.

(** ** Solidity value types *)

Abbreviation address := Z (only parsing).
Abbreviation uint256 := Z (only parsing).
Abbreviation uint32 := Z (only parsing).
(** [euint32] and [externalEuint32] are 32-byte handles of ciphertexts. *)
Abbreviation euint32 := Z (only parsing).
Abbreviation externalEuint32 := Z (only parsing).
Abbreviation bytes := (list byte) (only parsing).

Definition MAX_UINT256 : Z := 2 ^ 256 - 1.

(** ** Structs, events, storage *)

Module LotteryEntry.
Record t : Type := mk
  { participant : address;
    encryptedNumber : euint32;
    timestamp : uint256 }.
End LotteryEntry.

Module Winner.
Record t : Type := mk
  { winner : address;
    prize : uint256;
    winningNumber : uint32;
    timestamp : uint256 }.
End Winner.

#[global] Instance LotteryEntry_eq_dec : EqDecision LotteryEntry.t :=
  ltac:(solve_decision).

#[global] Instance Winner_eq_dec : EqDecision Winner.t :=
  ltac:(solve_decision).

Inductive Event : Type :=
| LotteryEntered (participant : address) (timestamp round : uint256)
| WinnerDrawn (winner : address) (prize : uint256) (winningNumber : uint32)
    (round : uint256)
| LotteryReset (newRound : uint256)
| LotteryStatusChanged (active : bool).

Record Storage : Type := mkStorage
  { owner : address;
    entryFee : uint256;
    prizePool : uint256;
    isActive : bool;
    roundNumber : uint256;
    entries : list LotteryEntry.t;
    winners : list Winner.t;
    participantEntries : gmap Z Z;
    hasWon : gmap Z bool }.

Definition set_entryFee (v : uint256) (s : Storage) : Storage :=
  mkStorage (owner s) v (prizePool s) (isActive s) (roundNumber s)
    (entries s) (winners s) (participantEntries s) (hasWon s).

Definition set_prizePool (v : uint256) (s : Storage) : Storage :=
  mkStorage (owner s) (entryFee s) v (isActive s) (roundNumber s)
    (entries s) (winners s) (participantEntries s) (hasWon s).

Definition set_isActive (v : bool) (s : Storage) : Storage :=
  mkStorage (owner s) (entryFee s) (prizePool s) v (roundNumber s)
    (entries s) (winners s) (participantEntries s) (hasWon s).

Definition set_roundNumber (v : uint256) (s : Storage) : Storage :=
  mkStorage (owner s) (entryFee s) (prizePool s) (isActive s) v
    (entries s) (winners s) (participantEntries s) (hasWon s).

Definition set_entries (v : list LotteryEntry.t) (s : Storage) : Storage :=
  mkStorage (owner s) (entryFee s) (prizePool s) (isActive s) (roundNumber s)
    v (winners s) (participantEntries s) (hasWon s).

Definition set_winners (v : list Winner.t) (s : Storage) : Storage :=
  mkStorage (owner s) (entryFee s) (prizePool s) (isActive s) (roundNumber s)
    (entries s) v (participantEntries s) (hasWon s).

Definition set_participantEntries (v : gmap Z Z) (s : Storage) : Storage :=
  mkStorage (owner s) (entryFee s) (prizePool s) (isActive s) (roundNumber s)
    (entries s) (winners s) v (hasWon s).

Definition set_hasWon (v : gmap Z bool) (s : Storage) : Storage :=
  mkStorage (owner s) (entryFee s) (prizePool s) (isActive s) (roundNumber s)
    (entries s) (winners s) (participantEntries s) v.

(** Reading a mapping gives the zero value at a key never written. *)
Definition entriesOf (s : Storage) (a : address) : uint256 :=
  default 0 (participantEntries s !! a).

Definition wonOf (s : Storage) (a : address) : bool :=
  default false (hasWon s !! a).

(** ** The world of the contract *)

Record World : Type := mkWorld
  { store : Storage;
    balance : uint256;                     (* address(this).balance *)
    events : list Event;                   (* oldest first *)
    transfers : list (address * uint256) } (* ether sent out, oldest first *).

(** What a transaction brings with it. *)
Record Env : Type := mkEnv
  { msg_sender : address;
    msg_value : uint256;
    block_timestamp : uint256;
    block_number : uint256;
    blockhash : uint256 -> uint256 }.

(** ** The monad of a function body *)

Inductive Failure : Type :=
| RequireFailed (reason : string)
| Panic (code : Z)            (* 0x11 overflow, 0x12 division by zero, 0x32 index *)
| CallValueRejected           (* ether sent to a function that is not payable *)
| InputProofRejected          (* FHE.fromExternal reverted *)
| PermissionRejected          (* FHE.allow / FHE.allowThis reverted *).

Inductive Outcome (A : Type) : Type :=
| Ok (a : A) (w : World)
| Fail (f : Failure).
Arguments Ok {A} a w.
Arguments Fail {A} f.

Definition M (A : Type) : Type := World -> Outcome A.

Definition ret {A} (a : A) : M A := fun w => Ok a w.

Definition bind {A B} (m : M A) (k : A -> M B) : M B :=
  fun w => match m w with
           | Ok a w' => k a w'
           | Fail f => Fail f
           end.

Declare Scope sol_scope.
Delimit Scope sol_scope with sol.
Notation "'let!' x ':=' c 'in' k" := (bind c (fun x => k))
  (at level 10, x name, c at level 100, k at level 200) : sol_scope.
Notation "c ;; k" := (bind c (fun _ => k))
  (at level 100, k at level 200, right associativity) : sol_scope.
Open Scope sol_scope.

Definition revert {A} (f : Failure) : M A := fun _ => Fail f.

Definition require (c : bool) (reason : string) : M unit :=
  if c then ret tt else revert (RequireFailed reason).

Definition sload {A} (f : Storage -> A) : M A :=
  fun w => Ok (f (store w)) w.

Definition sstore (f : Storage -> Storage) : M unit :=
  fun w => Ok tt (mkWorld (f (store w)) (balance w) (events w) (transfers w)).

Definition emit (e : Event) : M unit :=
  fun w => Ok tt (mkWorld (store w) (balance w) (events w ++ [e]) (transfers w)).

Definition selfbalance : M uint256 := fun w => Ok (balance w) w.

(** Checked arithmetic of Solidity 0.8 on uint256. *)
Definition checked_add (a b : uint256) : M uint256 :=
  if a + b <=? MAX_UINT256 then ret (a + b) else revert (Panic 17).

Definition checked_sub (a b : uint256) : M uint256 :=
  if b <=? a then ret (a - b) else revert (Panic 17).

Definition checked_mul (a b : uint256) : M uint256 :=
  if a * b <=? MAX_UINT256 then ret (a * b) else revert (Panic 17).

Definition checked_div (a b : uint256) : M uint256 :=
  if b =? 0 then revert (Panic 18) else ret (a / b).

Definition checked_mod (a b : uint256) : M uint256 :=
  if b =? 0 then revert (Panic 18) else ret (a mod b).

(** [abi.encodePacked] of the value types used by the draw: an integer
    on [n] bytes, most significant byte first. *)
Definition byte_of_Z (v : Z) : byte :=
  match Byte.of_N (Z.to_N (v mod 256)) with
  | Some b => b
  | None => Byte.x00
  end.

Fixpoint be_bytes (n : nat) (v : Z) : bytes :=
  match n with
  | O => []
  | S k => be_bytes k (v / 256) ++ [byte_of_Z v]
  end.

Definition encode_uint256 (v : uint256) : bytes := be_bytes 32 v.
Definition encode_bytes32 (v : uint256) : bytes := be_bytes 32 v.
Definition encode_address (a : address) : bytes := be_bytes 20 a.

(** Reading a big-endian byte string back as an integer. *)
Definition Z_of_byte (b : byte) : Z := Z.of_N (Byte.to_N b).

Definition be_decode (bs : bytes) : Z :=
  fold_left (fun acc b => acc * 256 + Z_of_byte b) bs 0.

(** The bytes the draw hashes: [abi.encodePacked(block.timestamp,
    block.number, blockhash(block.number - 1), entries.length,
    msg.sender)]. *)
Definition draw_preimage (ts bn bh len : uint256) (sender : address) : bytes :=
  encode_uint256 ts ++ encode_uint256 bn ++ encode_bytes32 bh ++
  encode_uint256 len ++ encode_address sender.

(** Values of the Solidity types. *)
Definition is_uint256 (v : Z) : Prop := 0 <= v <= MAX_UINT256.
Definition is_address (a : Z) : Prop := 0 <= a < 2 ^ 160.

(** ** The contract *)

(** Calls of the external interface.  [Receive] is a bare transfer of
    ether, [Fallback] a call that matches no function. *)
Inductive Call : Type :=
| EnterLottery (encryptedNumber : externalEuint32) (inputProof : bytes)
| DrawWinner
| GetPrizePool
| GetEntryFee
| GetEntryCount
| GetCurrentRound
| GetLastWinner
| GetAllWinners
| IsLotteryActive
| GetParticipantEntries (participant : address)
| HasParticipantWon (participant : address)
| SetLotteryActive (active : bool)
| SetEntryFee (newFee : uint256)
| EmergencyWithdraw
| Receive
| Fallback (data : bytes).

Inductive RetVal : Type :=
| RUnit
| RAddress (a : address)
| RUint (v : uint256)
| RBool (b : bool)
| RWinners (l : list Winner.t).

Inductive Receipt : Type :=
| Success (r : RetVal)
| Reverted (f : Failure).

Definition payable (c : Call) : bool :=
  match c with
  | EnterLottery _ _ | Receive | Fallback _ => true
  | _ => false
  end.

(** The constructor records the deployer as owner; every other variable
    has its initialiser (0.001 ether is 10^15 wei).  It is not payable,
    so the contract starts without ether. *)
Definition constructor (env : Env) : World :=
  mkWorld
    (mkStorage (msg_sender env) (10 ^ 15) 0 true 1 [] [] ∅ ∅)
    0 [] [].


(** ** Calls from inside a payment *)

(** A call made to the contract by the recipient of a payment, while it
    holds control: the block is the one of the transaction under way. *)
Record Message : Type := mkMessage
  { msg_from : address;
    msg_amount : uint256;
    msg_call : Call }.

Definition nested (env : Env) (m : Message) : Env :=
  mkEnv (msg_from m) (msg_amount m) (block_timestamp env) (block_number env)
    (blockhash env).

(** What the recipient of a payment does while it holds control.  It
    returns and keeps the ether ([Accept]); or it reverts ([Refuse]),
    which makes the payment fail and undoes whatever has happened
    since the payment started; or it calls the contract and goes on
    according to the world that call has left and to its receipt. *)
Inductive Hook : Type :=
| Accept : Hook
| Refuse : Hook
| CallBack : Message -> (World -> Receipt -> Hook) -> Hook.

(** Every call the program may make satisfies [ok]. *)
Fixpoint hook_all (ok : Env -> Call -> Prop) (env : Env) (h : Hook) : Prop :=
  match h with
  | Accept | Refuse => True
  | CallBack m k =>
      ok (nested env m) (msg_call m) /\ forall w rc, hook_all ok env (k w rc)
  end.

(** The meaning, inside a body, of [payable(to).call{ value: v }] with
    empty call data. *)
Definition ValueCall : Type := Env -> address -> uint256 -> M bool.
(** ** A scenario

    The deployer owns the lottery; Alice enters with exactly the fee,
    Bob with twice the fee.  The worlds below are the ones the contract
    goes through ([w0], [w1], [w2]), the world after the owner's draw
    ([w3]) and variations of [w2]: paused, swept by an emergency
    withdrawal, with another fee.  A second lottery is free of charge
    ([f2], [f3]).  The oracles stand for an outside world that
    cooperates, or in which payments are refused, or in which the
    winner or the owner is a contract that calls the lottery again
    when it is paid. *)
Module Sample.

Definition deployer : address := 1000.
Definition alice : address := 2001.
Definition bob : address := 2002.
Definition mallory : address := 6666.

Definition fee : uint256 := 10 ^ 15.
Definition now : uint256 := 1700000000.

Definition keccak (bs : bytes) : uint256 := Z.of_nat (length bs) + 1.
Definition fromExternal_ok (_ : Env) (h : externalEuint32) (_ : bytes)
  : option euint32 := Some h.
Definition allowThis_ok (_ : Env) (_ : euint32) : bool := true.
Definition allow_ok (_ : Env) (_ : euint32) (_ : address) : bool := true.
(** The permission was never granted to the contract. *)
Definition allowThis_refused (_ : Env) (_ : euint32) : bool := false.

(** Recipients that take the ether and do nothing else. *)
Definition accept_all (_ : Env) (_ : World) (_ : address) (_ : uint256)
  : Hook := Accept.
(** The owner is a contract that cannot receive ether. *)
Definition refuse_owner (_ : Env) (_ : World) (to : address) (_ : uint256)
  : Hook := if to =? deployer then Refuse else Accept.
(** The owner is a contract that calls drawWinner again when it is paid
    and the history holds one winner. *)
Definition owner_draws_again (_ : Env) (w : World) (to : address)
    (_ : uint256) : Hook :=
  if (to =? deployer) && (Z.of_nat (length (winners (store w))) =? 1)
  then CallBack (mkMessage deployer 0 DrawWinner) (fun _ _ => Accept)
  else Accept.

(** The winner Bob is a contract that sends [x] wei to the contract's
    receive function when it is paid. *)
Definition winner_donates (x : uint256) (_ : Env) (_ : World) (to : address)
    (_ : uint256) : Hook :=
  if to =? bob
  then CallBack (mkMessage bob x Receive) (fun _ _ => Accept)
  else Accept.
(** The owner is a contract that pauses the lottery when it is paid. *)
Definition owner_pauses (_ : Env) (_ : World) (to : address) (_ : uint256)
  : Hook :=
  if to =? deployer
  then CallBack (mkMessage deployer 0 (SetLotteryActive false))
         (fun _ _ => Accept)
  else Accept.

(** Calls may nest this deep. *)
Definition depth : nat := 8.

Definition env_of (sender : address) (value : uint256) : Env :=
  mkEnv sender value now 100 (fun _ => 0).

Definition by_owner : Env := env_of deployer 0.

Definition entryA : LotteryEntry.t := LotteryEntry.mk alice 77 now.
Definition entryB : LotteryEntry.t := LotteryEntry.mk bob 88 now.

Definition txs : list (Env * Call) :=
  [(env_of alice fee, EnterLottery 77 []);
   (env_of bob (2 * fee), EnterLottery 88 [])].

Definition w0 : World := constructor by_owner.

Definition w1 : World :=
  mkWorld
    (mkStorage deployer fee fee true 1 [entryA] [] (<[alice := 1]> ∅) ∅)
    fee [LotteryEntered alice now 1] [].

Definition w2 : World :=
  mkWorld
    (mkStorage deployer fee (3 * fee) true 1 [entryA; entryB] []
       (<[bob := 1]> (<[alice := 1]> ∅)) ∅)
    (3 * fee)
    [LotteryEntered alice now 1; LotteryEntered bob now 1] [].

Definition recordB : Winner.t := Winner.mk bob 2400000000000000 0 now.

Definition w3 : World :=
  mkWorld
    (mkStorage deployer fee 0 true 2 [] [recordB]
       (<[bob := 1]> (<[alice := 1]> ∅)) (<[bob := true]> ∅))
    0
    [LotteryEntered alice now 1; LotteryEntered bob now 1;
     WinnerDrawn bob 2400000000000000 0 1; LotteryReset 2]
    [(bob, 2400000000000000); (deployer, 600000000000000)].

(** After the draw during which Bob, being paid, has sent 1000 wei
    back through receive. *)
Definition w3_donated : World :=
  mkWorld
    (mkStorage deployer fee 0 true 2 [] [recordB]
       (<[bob := 1]> (<[alice := 1]> ∅)) (<[bob := true]> ∅))
    1000
    [LotteryEntered alice now 1; LotteryEntered bob now 1;
     WinnerDrawn bob 2400000000000000 0 1; LotteryReset 2]
    [(bob, 2400000000000000); (deployer, 600000000000000)].

(** After the draw during which the owner, being paid, has paused the
    lottery. *)
Definition w3_paused : World :=
  mkWorld
    (mkStorage deployer fee 0 false 2 [] [recordB]
       (<[bob := 1]> (<[alice := 1]> ∅)) (<[bob := true]> ∅))
    0
    [LotteryEntered alice now 1; LotteryEntered bob now 1;
     LotteryStatusChanged false;
     WinnerDrawn bob 2400000000000000 0 1; LotteryReset 2]
    [(bob, 2400000000000000); (deployer, 600000000000000)].

Definition w2_paused : World :=
  mkWorld (set_isActive false (store w2)) (balance w2)
    (events w2 ++ [LotteryStatusChanged false]) (transfers w2).

Definition w2_swept : World :=
  mkWorld (store w2) 0 (events w2) [(deployer, 3 * fee)].

Definition w2_fee5 : World :=
  mkWorld (set_entryFee 5 (store w2)) (balance w2) (events w2) (transfers w2).

(** What happens after the sweep: Alice enters again, Bob donates. *)
Definition later_txs : list (Env * Call) :=
  [(env_of alice fee, EnterLottery 99 []);
   (env_of bob fee, Receive)].

(** The free lottery: the owner sets the fee to 0, Alice enters without
    paying, the owner draws. *)
Definition free_txs : list (Env * Call) :=
  [(by_owner, SetEntryFee 0);
   (env_of alice 0, EnterLottery 77 [])].

Definition recordA : Winner.t := Winner.mk alice 0 0 now.

Definition f2 : World :=
  mkWorld
    (mkStorage deployer 0 0 true 1 [entryA] [] (<[alice := 1]> ∅) ∅)
    0 [LotteryEntered alice now 1] [].

(** After a draw during which the owner has drawn again. *)
Definition f3 : World :=
  mkWorld
    (mkStorage deployer 0 0 true 3 [] [recordA; recordA]
       (<[alice := 1]> ∅) (<[alice := true]> ∅))
    0
    [LotteryEntered alice now 1;
     WinnerDrawn alice 0 0 1; LotteryReset 2;
     WinnerDrawn alice 0 0 2; LotteryReset 3]
    [(alice, 0); (deployer, 0); (alice, 0); (deployer, 0)].

End Sample.

Section Contract.

(** The world outside the contract. *)
Variable keccak256 : bytes -> uint256.
Variable FHE_fromExternal : Env -> externalEuint32 -> bytes -> option euint32.
Variable FHE_allowThis : Env -> euint32 -> bool.
Variable FHE_allow : Env -> euint32 -> address -> bool.
(** What the account [to] does when the call [env] pays it [v] in the
    world [w]. *)
Variable recipient : Env -> World -> address -> uint256 -> Hook.

Definition fromExternal (env : Env) (h : externalEuint32) (proof : bytes)
  : M euint32 :=
  match FHE_fromExternal env h proof with
  | Some v => ret v
  | None => revert InputProofRejected
  end.

Definition allowThis (env : Env) (h : euint32) : M unit :=
  if FHE_allowThis env h then ret tt else revert PermissionRejected.

Definition allow (env : Env) (h : euint32) (a : address) : M unit :=
  if FHE_allow env h a then ret tt else revert PermissionRejected.

Definition onlyOwner (env : Env) : M unit :=
  let! o := sload owner in
  require (msg_sender env =? o) "Only owner can call this function".

Definition onlyActive : M unit :=
  let! a := sload isActive in
  require a "Lottery is not active".

Definition enterLottery (env : Env) (encryptedNumber : externalEuint32)
    (inputProof : bytes) : M unit :=
  onlyActive ;;
  let! fee := sload entryFee in
  require (fee <=? msg_value env) "Insufficient entry fee" ;;
  let! encryptedValue := fromExternal env encryptedNumber inputProof in
  sstore (fun s =>
    set_entries
      (entries s ++
         [LotteryEntry.mk (msg_sender env) encryptedValue (block_timestamp env)])
      s) ;;
  let! n := sload (fun s => entriesOf s (msg_sender env)) in
  let! n' := checked_add n 1 in
  sstore (fun s =>
    set_participantEntries (<[msg_sender env := n']> (participantEntries s)) s) ;;
  let! pool := sload prizePool in
  let! pool' := checked_add pool (msg_value env) in
  sstore (set_prizePool pool') ;;
  let! round := sload roundNumber in
  emit (LotteryEntered (msg_sender env) (block_timestamp env) round).

Definition resetLottery : M unit :=
  sstore (set_entries []) ;;
  sstore (set_prizePool 0) ;;
  let! r := sload roundNumber in
  let! r' := checked_add r 1 in
  sstore (set_roundNumber r') ;;
  let! r'' := sload roundNumber in
  emit (LotteryReset r'').

(** The index of the draw: the hash of the packed block data, entry
    count and caller, reduced modulo the entry count. *)
Definition randomIndex (env : Env) : M uint256 :=
  let! len := sload (fun s => Z.of_nat (length (entries s))) in
  let! prev := checked_sub (block_number env) 1 in
  let h := keccak256
             (encode_uint256 (block_timestamp env) ++
              encode_uint256 (block_number env) ++
              encode_bytes32 (blockhash env prev) ++
              encode_uint256 len ++
              encode_address (msg_sender env)) in
  checked_mod (h mod 2 ^ 256) len.

Definition entryAt (i : uint256) : M LotteryEntry.t :=
  let! es := sload entries in
  match es !! Z.to_nat i with
  | Some e => ret e
  | None => revert (Panic 50)
  end.

(** [call] is what the two low-level calls of the payouts do. *)
Definition drawWinner (call : ValueCall) (env : Env) : M address :=
  onlyOwner env ;;
  onlyActive ;;
  let! len := sload (fun s => Z.of_nat (length (entries s))) in
  require (0 <? len) "No entries in lottery" ;;
  let! randomIndex := randomIndex env in
  let! winningEntry := entryAt randomIndex in
  let winner := LotteryEntry.participant winningEntry in
  let encryptedWinningNumber := LotteryEntry.encryptedNumber winningEntry in
  allowThis env encryptedWinningNumber ;;
  let! o := sload owner in
  allow env encryptedWinningNumber o ;;
  let winningNumber := 0 in
  let! pool := sload prizePool in
  let! pool80 := checked_mul pool 80 in
  let! prize := checked_div pool80 100 in
  let! ownerFee := checked_sub pool prize in
  sstore (fun s => set_hasWon (<[winner := true]> (hasWon s)) s) ;;
  sstore (fun s =>
    set_winners
      (winners s ++ [Winner.mk winner prize winningNumber (block_timestamp env)])
      s) ;;
  let! successWinner := call env winner prize in
  require successWinner "Prize transfer to winner failed" ;;
  let! o' := sload owner in
  let! successOwner := call env o' ownerFee in
  require successOwner "Fee transfer to owner failed" ;;
  let! round := sload roundNumber in
  emit (WinnerDrawn winner prize winningNumber round) ;;
  resetLottery ;;
  ret winner.

(** View functions *)

Definition getPrizePool : M uint256 := sload prizePool.

Definition getEntryFee : M uint256 := sload entryFee.

Definition getEntryCount : M uint256 :=
  sload (fun s => Z.of_nat (length (entries s))).

Definition getCurrentRound : M uint256 := sload roundNumber.

Definition getLastWinner : M address :=
  let! ws := sload winners in
  require (0 <? Z.of_nat (length ws)) "No winners yet" ;;
  let! i := checked_sub (Z.of_nat (length ws)) 1 in
  match ws !! Z.to_nat i with
  | Some r => ret (Winner.winner r)
  | None => revert (Panic 50)
  end.

Definition getAllWinners : M (list Winner.t) := sload winners.

Definition isLotteryActive : M bool := sload isActive.

Definition getParticipantEntries (participant : address) : M uint256 :=
  sload (fun s => entriesOf s participant).

Definition hasParticipantWon (participant : address) : M bool :=
  sload (fun s => wonOf s participant).

(** Owner functions *)

Definition setLotteryActive (env : Env) (active : bool) : M unit :=
  onlyOwner env ;;
  sstore (set_isActive active) ;;
  emit (LotteryStatusChanged active).

Definition setEntryFee (env : Env) (newFee : uint256) : M unit :=
  onlyOwner env ;;
  sstore (set_entryFee newFee).

Definition emergencyWithdraw (call : ValueCall) (env : Env) : M unit :=
  onlyOwner env ;;
  let! o := sload owner in
  let! b := selfbalance in
  let! success := call env o b in
  require success "Withdrawal failed".

(** receive() and fallback() *)

Definition receive (env : Env) : M unit :=
  let! pool := sload prizePool in
  let! pool' := checked_add pool (msg_value env) in
  sstore (set_prizePool pool').

Definition fallback (env : Env) : M unit :=
  let! pool := sload prizePool in
  let! pool' := checked_add pool (msg_value env) in
  sstore (set_prizePool pool').

(** ** Transactions *)

Definition fmapM {A B} (f : A -> B) (m : M A) : M B :=
  let! a := m in ret (f a).

Definition dispatch (call : ValueCall) (env : Env) (c : Call) : M RetVal :=
  match c with
  | EnterLottery h proof => fmapM (fun _ => RUnit) (enterLottery env h proof)
  | DrawWinner => fmapM RAddress (drawWinner call env)
  | GetPrizePool => fmapM RUint getPrizePool
  | GetEntryFee => fmapM RUint getEntryFee
  | GetEntryCount => fmapM RUint getEntryCount
  | GetCurrentRound => fmapM RUint getCurrentRound
  | GetLastWinner => fmapM RAddress getLastWinner
  | GetAllWinners => fmapM RWinners getAllWinners
  | IsLotteryActive => fmapM RBool isLotteryActive
  | GetParticipantEntries a => fmapM RUint (getParticipantEntries a)
  | HasParticipantWon a => fmapM RBool (hasParticipantWon a)
  | SetLotteryActive b => fmapM (fun _ => RUnit) (setLotteryActive env b)
  | SetEntryFee n => fmapM (fun _ => RUnit) (setEntryFee env n)
  | EmergencyWithdraw => fmapM (fun _ => RUnit) (emergencyWithdraw call env)
  | Receive => fmapM (fun _ => RUnit) (receive env)
  | Fallback _ => fmapM (fun _ => RUnit) (fallback env)
  end.

(** The ether sent with a call is credited before the body runs; a
    function that is not payable refuses any. *)
Definition credit (v : uint256) (w : World) : World :=
  mkWorld (store w) (balance w + v) (events w) (transfers w).

Definition entry (call : ValueCall) (env : Env) (c : Call) : M RetVal :=
  if payable c
  then fun w => dispatch call env c (credit (msg_value env) w)
  else if msg_value env =? 0 then dispatch call env c
  else revert CallValueRejected.

(** A call to the contract commits the world its body reaches, or
    reverts to the world it started from. *)
Definition transact_with (call : ValueCall) (env : Env) (c : Call) (w : World)
  : World * Receipt :=
  match entry call env c w with
  | Ok r w' => (w', Success r)
  | Fail f => (w, Reverted f)
  end.

(** ** Payments *)

Definition debit (to : address) (v : uint256) (w : World) : World :=
  mkWorld (store w) (balance w - v) (events w) (transfers w ++ [(to, v)]).

(** The recipient's program, run from the world [w] in which the
    ether has left: the world in which it accepts, or [None] when it
    refuses.  A call of its own that is rejected changes nothing, and
    the program goes on. *)
Fixpoint run_hook (call : ValueCall) (env : Env) (h : Hook) (w : World)
  : option World :=
  match h with
  | Accept => Some w
  | Refuse => None
  | CallBack m k =>
      let result := transact_with call (nested env m) (msg_call m) w in
      run_hook call env (k (fst result) (snd result)) (fst result)
  end.

(** [payable(to).call{ value: v }] with empty call data, [depth]
    levels of calls being left.  The call fails, and nothing moves,
    when no level is left, when the contract does not hold [v], or when
    the recipient refuses.  Otherwise the ether leaves, the recipient
    runs its program, one level deeper, and the call succeeds. *)
Fixpoint call_value (depth : nat) (env : Env) (to : address) (v : uint256)
    (w : World) {struct depth} : Outcome bool :=
  match depth with
  | O => Ok false w
  | S d =>
      if v <=? balance w
      then match run_hook (call_value d) env (recipient env w to v)
                   (debit to v w) with
           | Some w' => Ok true w'
           | None => Ok false w
           end
      else Ok false w
  end.

(** A transaction, with [depth] levels of calls below it. *)
Definition transact (depth : nat) (env : Env) (c : Call) (w : World)
  : World * Receipt :=
  transact_with (call_value depth) env c w.

Definition step (depth : nat) (w : World) (tx : Env * Call) : World :=
  fst (transact depth (fst tx) (snd tx) w).

(** The world after a sequence of transactions. *)
Definition run (depth : nat) (txs : list (Env * Call)) (w : World) : World :=
  fold_left (step depth) txs w.

(** ** The draw, step by step

    The values a draw computes and the worlds it goes through, read
    off the body of [drawWinner]; [drawWinner_run] below shows that
    the body computes exactly these. *)

Definition draw_index (env : Env) (s : Storage) : uint256 :=
  (keccak256
     (encode_uint256 (block_timestamp env) ++
      encode_uint256 (block_number env) ++
      encode_bytes32 (blockhash env (block_number env - 1)) ++
      encode_uint256 (Z.of_nat (length (entries s))) ++
      encode_address (msg_sender env)) mod 2 ^ 256)
  mod Z.of_nat (length (entries s)).

Definition draw_entry (env : Env) (s : Storage) : option LotteryEntry.t :=
  entries s !! Z.to_nat (draw_index env s).

Definition draw_prize (s : Storage) : uint256 := prizePool s * 80 / 100.

Definition draw_ownerFee (s : Storage) : uint256 := prizePool s - draw_prize s.

(** After the winner has been recorded in [hasWon] and [winners]. *)
Definition draw_recorded (env : Env) (e : LotteryEntry.t) (w : World) : World :=
  mkWorld
    (set_winners
       (winners (store w) ++
          [Winner.mk (LotteryEntry.participant e) (draw_prize (store w)) 0
             (block_timestamp env)])
       (set_hasWon (<[LotteryEntry.participant e := true]> (hasWon (store w)))
          (store w)))
    (balance w) (events w) (transfers w).

(** The end of a draw that started in [w]: the event and the reset,
    applied to the world [w2] in which the second payout has returned. *)
Definition draw_closed (env : Env) (e : LotteryEntry.t) (w w2 : World) : World :=
  mkWorld
    (set_roundNumber (roundNumber (store w2) + 1)
       (set_prizePool 0 (set_entries [] (store w2))))
    (balance w2)
    ((events w2 ++
        [WinnerDrawn (LotteryEntry.participant e) (draw_prize (store w)) 0
           (roundNumber (store w2))]) ++
       [LotteryReset (roundNumber (store w2) + 1)])
    (transfers w2).

(** The flag and the world a low-level call returns. *)
Definition call_ok (o : Outcome bool) : bool :=
  match o with
  | Ok b _ => b
  | Fail _ => false
  end.

Definition call_world (w0 : World) (o : Outcome bool) : World :=
  match o with
  | Ok _ w => w
  | Fail _ => w0
  end.

(** The payout to the winner, with [depth] levels of calls left. *)
Definition winner_transfer (depth : nat) (env : Env) (e : LotteryEntry.t)
    (w : World) : Outcome bool :=
  call_value depth env (LotteryEntry.participant e) (draw_prize (store w))
    (draw_recorded env e w).

Definition winner_transfer_ok (depth : nat) (env : Env) (e : LotteryEntry.t)
    (w : World) : bool :=
  call_ok (winner_transfer depth env e w).

(** When the payout to the winner has returned. *)
Definition draw_paid_winner (depth : nat) (env : Env) (e : LotteryEntry.t)
    (w : World) : World :=
  call_world (draw_recorded env e w) (winner_transfer depth env e w).

(** The payout to the owner: the owner is read again, the fee is the one
    computed at the start. *)
Definition owner_transfer (depth : nat) (env : Env) (e : LotteryEntry.t)
    (w : World) : Outcome bool :=
  call_value depth env (owner (store (draw_paid_winner depth env e w)))
    (draw_ownerFee (store w)) (draw_paid_winner depth env e w).

Definition owner_transfer_ok (depth : nat) (env : Env) (e : LotteryEntry.t)
    (w : World) : bool :=
  call_ok (owner_transfer depth env e w).

(** When the payout to the owner has returned. *)
Definition draw_paid_owner (depth : nat) (env : Env) (e : LotteryEntry.t)
    (w : World) : World :=
  call_world (draw_paid_winner depth env e w) (owner_transfer depth env e w).

(** After the event and the reset. *)
Definition draw_final (depth : nat) (env : Env) (e : LotteryEntry.t)
    (w : World) : World :=
  draw_closed env e w (draw_paid_owner depth env e w).

(** Everything the draw checks before it records the winner. *)
Definition draw_admitted (env : Env) (e : LotteryEntry.t) (w : World) : bool :=
  (msg_sender env =? owner (store w))
  && isActive (store w)
  && (0 <? Z.of_nat (length (entries (store w))))
  && (1 <=? block_number env)
  && bool_decide (draw_entry env (store w) = Some e)
  && FHE_allowThis env (LotteryEntry.encryptedNumber e)
  && FHE_allow env (LotteryEntry.encryptedNumber e) (owner (store w))
  && (prizePool (store w) * 80 <=? MAX_UINT256)
  && (draw_prize (store w) <=? prizePool (store w)).

Definition round_fits (w : World) : bool :=
  roundNumber (store w) + 1 <=? MAX_UINT256.

(** The world a successful entry leaves, from the world [w] that holds
    the payment already; [v] is the handle the FHE library returned. *)
Definition enter_final (env : Env) (v : euint32) (w : World) : World :=
  let s := store w in
  mkWorld
    (set_prizePool (prizePool s + msg_value env)
       (set_participantEntries
          (<[msg_sender env := entriesOf s (msg_sender env) + 1]>
             (participantEntries s))
          (set_entries
             (entries s ++
                [LotteryEntry.mk (msg_sender env) v (block_timestamp env)])
             s)))
    (balance w)
    (events w ++
       [LotteryEntered (msg_sender env) (block_timestamp env) (roundNumber s)])
    (transfers w).

(** The worlds the owner functions and the donation paths leave. *)
Definition status_changed (active : bool) (w : World) : World :=
  mkWorld (set_isActive active (store w)) (balance w)
    (events w ++ [LotteryStatusChanged active]) (transfers w).

Definition fee_changed (newFee : uint256) (w : World) : World :=
  mkWorld (set_entryFee newFee (store w)) (balance w) (events w) (transfers w).

Definition donated (env : Env) (w : World) : World :=
  mkWorld (set_prizePool (prizePool (store w) + msg_value env) (store w))
    (balance w) (events w) (transfers w).

(** The calls the contract is meant to turn down: an entry that pays
    less than the fee or comes while the lottery is inactive, a draw
    without entries, and an owner function called by someone else. *)
Definition guard_violated (env : Env) (c : Call) (w : World) : Prop :=
  match c with
  | EnterLottery _ _ =>
      msg_value env < entryFee (store w) \/ isActive (store w) = false
  | DrawWinner =>
      entries (store w) = [] \/ msg_sender env <> owner (store w)
  | SetLotteryActive _ | SetEntryFee _ | EmergencyWithdraw =>
      msg_sender env <> owner (store w)
  | _ => False
  end.

(** What a committed call has done to the world, in terms of what its
    low-level calls have returned. *)
Definition effect (call : ValueCall) (env : Env) (c : Call) (w w' : World)
  : Prop :=
  match c with
  | EnterLottery h proof =>
      isActive (store w) = true /\
      entryFee (store w) <= msg_value env /\
      entriesOf (store w) (msg_sender env) + 1 <= MAX_UINT256 /\
      prizePool (store w) + msg_value env <= MAX_UINT256 /\
      exists v, FHE_fromExternal env h proof = Some v /\
                w' = enter_final env v (credit (msg_value env) w)
  | DrawWinner =>
      exists e w1 w2,
        draw_admitted env e w = true /\
        call env (LotteryEntry.participant e) (draw_prize (store w))
          (draw_recorded env e w) = Ok true w1 /\
        call env (owner (store w1)) (draw_ownerFee (store w)) w1 = Ok true w2 /\
        roundNumber (store w2) + 1 <= MAX_UINT256 /\
        w' = draw_closed env e w w2
  | SetLotteryActive b =>
      msg_sender env = owner (store w) /\ w' = status_changed b w
  | SetEntryFee n =>
      msg_sender env = owner (store w) /\ w' = fee_changed n w
  | EmergencyWithdraw =>
      msg_sender env = owner (store w) /\
      call env (owner (store w)) (balance w) w = Ok true w'
  | Receive | Fallback _ =>
      prizePool (store w) + msg_value env <= MAX_UINT256 /\
      w' = donated env (credit (msg_value env) w)
  | _ => w' = w
  end.

(** ** Vocabulary of the lifetime properties *)

(** No recipient calls back: each one takes the ether, or refuses it,
    and does nothing else (an externally owned account, or a contract
    without code to that effect). *)
Definition quiet : Prop :=
  forall env w to v,
    recipient env w to v = Accept \/ recipient env w to v = Refuse.

(** A transaction whose arguments are values of their Solidity types. *)
Definition wf_tx (tx : Env * Call) : Prop :=
  is_uint256 (msg_value (fst tx)) /\
  match snd tx with
  | SetEntryFee n => is_uint256 n
  | _ => True
  end.

(** Every call a recipient makes while it is paid satisfies [ok]. *)
Definition hooks_ok (ok : Env -> Call -> Prop) : Prop :=
  forall env w to v, hook_all ok env (recipient env w to v).

(** The calls recipients make are well-typed, too. *)
Definition wf_hooks : Prop := hooks_ok (fun env c => wf_tx (env, c)).

(** How the world may change over time: the owner stays, entry counts
    and has-won flags are kept or raised, the histories of winners,
    events and transfers grow at their end, and the round number
    advances by the number of winners recorded. *)
Definition evolves (w w' : World) : Prop :=
  owner (store w') = owner (store w) /\
  (forall a, entriesOf (store w) a <= entriesOf (store w') a) /\
  winners (store w) `prefix_of` winners (store w') /\
  events w `prefix_of` events w' /\
  transfers w `prefix_of` transfers w' /\
  (forall a, wonOf (store w) a = true -> wonOf (store w') a = true) /\
  roundNumber (store w') - roundNumber (store w) =
    Z.of_nat (length (winners (store w'))) -
    Z.of_nat (length (winners (store w))).

(** The prize pool has not gone down, unless a draw has been recorded. *)
Definition pool_kept (w w' : World) : Prop :=
  (length (winners (store w)) <= length (winners (store w')))%nat /\
  (prizePool (store w) <= prizePool (store w') \/
   (length (winners (store w)) < length (winners (store w')))%nat).

(** The contract holds less ether than its prize pool promises. *)
Definition underfunded (w : World) : Prop :=
  0 <= balance w /\ balance w < prizePool (store w).

(** The number of entries of [a] in the current round. *)
Definition round_entries_of (s : Storage) (a : address) : Z :=
  Z.of_nat (length (filter (fun e => LotteryEntry.participant e = a) (entries s))).

Definition ledgers_agree (w : World) : Prop :=
  forall a, round_entries_of (store w) a <= entriesOf (store w) a.

(** Every uint256 variable of the storage holds a uint256. *)
Definition storage_in_range (s : Storage) : Prop :=
  is_uint256 (entryFee s) /\
  is_uint256 (prizePool s) /\
  1 <= roundNumber s <= MAX_UINT256 /\
  forall a, is_uint256 (entriesOf s a).

(** The calls that hand control to a recipient. *)
Definition calls_out (c : Call) : bool :=
  match c with
  | DrawWinner | EmergencyWithdraw => true
  | _ => false
  end.

(** A step that keeps the storage well-typed. *)
Definition keeps_range (w w' : World) : Prop :=
  storage_in_range (store w) -> storage_in_range (store w').

(** A step that keeps the two ledgers of entries in agreement. *)
Definition keeps_ledgers (w w' : World) : Prop :=
  ledgers_agree w -> ledgers_agree w'.

Definition is_sweep (tx : Env * Call) : bool :=
  match snd tx with
  | EmergencyWithdraw => true
  | _ => false
  end.

(** The events a committed call adds to the log by itself; a draw or an
    emergency withdrawal may have more in the log, from the calls made
    by those it pays. *)
Definition emitted (env : Env) (c : Call) (w : World) : list Event :=
  match c with
  | EnterLottery _ _ =>
      [LotteryEntered (msg_sender env) (block_timestamp env)
         (roundNumber (store w))]
  | SetLotteryActive b => [LotteryStatusChanged b]
  | _ => []
  end.

(** ** Running a body *)

Ltac unfold_sol :=
  unfold drawWinner, enterLottery, resetLottery, randomIndex, entryAt,
    setLotteryActive, setEntryFee, emergencyWithdraw, receive, fallback,
    getLastWinner, onlyOwner, onlyActive, allowThis, allow, fromExternal,
    require, checked_add, checked_sub, checked_mul, checked_div,
    checked_mod, sload, sstore, emit, selfbalance, revert, bind, ret.

Ltac unfold_sol_in H :=
  unfold drawWinner, enterLottery, resetLottery, randomIndex, entryAt,
    setLotteryActive, setEntryFee, emergencyWithdraw, receive, fallback,
    getLastWinner, onlyOwner, onlyActive, allowThis, allow, fromExternal,
    require, checked_add, checked_sub, checked_mul, checked_div,
    checked_mod, sload, sstore, emit, selfbalance, revert, bind, ret in H.

(** One step of a body in hypothesis [H]: case on the innermost test. *)
Ltac step_in H :=
  match type of H with
  | context [ match ?x with _ => _ end ] =>
      lazymatch x with
      | context [ match _ with _ => _ end ] => fail
      | _ => destruct x eqn:?; cbv beta iota zeta in H; try discriminate H
      end
  end.

Ltac run_in H := unfold_sol_in H; cbv beta iota zeta in H; repeat step_in H.

Lemma draw_entry_in_range env s :
  entries s <> [] -> is_Some (draw_entry env s).
Proof.
  intros Hne. unfold draw_entry, draw_index.
  apply lookup_lt_is_Some.
  assert (0 < Z.of_nat (length (entries s))) by (destruct (entries s); simpl; [done | lia]).
  pose proof (Z.mod_pos_bound
    (keccak256
       (encode_uint256 (block_timestamp env) ++
        encode_uint256 (block_number env) ++
        encode_bytes32 (blockhash env (block_number env - 1)) ++
        encode_uint256 (Z.of_nat (length (entries s))) ++
        encode_address (msg_sender env)) mod 2 ^ 256)
    (Z.of_nat (length (entries s))) H).
  lia.
Qed.

Lemma draw_entry_member env s e :
  draw_entry env s = Some e -> e ∈ entries s.
Proof. unfold draw_entry. apply list_elem_of_lookup_2. Qed.

Lemma draw_admitted_entry env e w :
  draw_admitted env e w = true -> draw_entry env (store w) = Some e.
Proof.
  unfold draw_admitted. rewrite !andb_true_iff, bool_decide_eq_true.
  tauto.
Qed.

Lemma draw_admitted_owner env e w :
  draw_admitted env e w = true ->
  msg_sender env = owner (store w) /\ isActive (store w) = true.
Proof.
  unfold draw_admitted. rewrite !andb_true_iff. intros H.
  split; [lia|tauto].
Qed.

(** The body of a draw that has passed its checks, for any meaning of
    the low-level call. *)
Lemma drawWinner_run call env e w :
  draw_admitted env e w = true ->
  drawWinner call env w =
    match call env (LotteryEntry.participant e) (draw_prize (store w))
            (draw_recorded env e w) with
    | Ok true w1 =>
        match call env (owner (store w1)) (draw_ownerFee (store w)) w1 with
        | Ok true w2 =>
            if round_fits w2
            then Ok (LotteryEntry.participant e) (draw_closed env e w w2)
            else Fail (Panic 17)
        | Ok false _ => Fail (RequireFailed "Fee transfer to owner failed")
        | Fail f => Fail f
        end
    | Ok false _ => Fail (RequireFailed "Prize transfer to winner failed")
    | Fail f => Fail f
    end.
Proof.
  unfold draw_admitted. rewrite !andb_true_iff, bool_decide_eq_true.
  intros [[[[[[[[Ho Ha] Hlen] Hbn] He] Hat] Hal] Hmul] Hsub].
  unfold draw_entry, draw_index in He.
  unfold_sol. cbv beta iota zeta.
  rewrite Ho. cbv beta iota. rewrite Ha. cbv beta iota.
  rewrite Hlen. cbv beta iota. rewrite Hbn. cbv beta iota.
  assert ((Z.of_nat (length (entries (store w))) =? 0) = false) as -> by lia.
  cbv beta iota. rewrite He. cbv beta iota. rewrite Hat. cbv beta iota.
  rewrite Hal. cbv beta iota. rewrite Hmul. cbv beta iota.
  assert ((100 =? 0) = false) as -> by done. cbv beta iota.
  fold (draw_prize (store w)). rewrite Hsub. cbv beta iota.
  change (call env (LotteryEntry.participant e) (draw_prize (store w)) _)
    with (call env (LotteryEntry.participant e) (draw_prize (store w))
            (draw_recorded env e w)).
  destruct (call env (LotteryEntry.participant e) (draw_prize (store w))
              (draw_recorded env e w)) as [[|] w1|f]; [|reflexivity..].
  cbv beta iota.
  change (prizePool (store w) - draw_prize (store w))
    with (draw_ownerFee (store w)).
  destruct (call env (owner (store w1)) (draw_ownerFee (store w)) w1)
    as [[|] w2|f]; [|reflexivity..].
  cbv beta iota.
  change (_ + 1 <=? MAX_UINT256) with (round_fits w2).
  destruct (round_fits w2); reflexivity.
Qed.

Lemma drawWinner_admitted call env w a w' :
  drawWinner call env w = Ok a w' ->
  exists e, draw_admitted env e w = true.
Proof.
  intros H. unfold_sol_in H. cbv beta iota zeta in H.
  destruct (msg_sender env =? owner (store w)) eqn:Ho; [|done].
  cbv beta iota in H.
  destruct (isActive (store w)) eqn:Ha; [|done]. cbv beta iota in H.
  destruct (0 <? Z.of_nat (length (entries (store w)))) eqn:Hlen; [|done].
  cbv beta iota in H.
  destruct (1 <=? block_number env) eqn:Hbn; [|done]. cbv beta iota in H.
  destruct (Z.of_nat (length (entries (store w))) =? 0) eqn:Hz; [done|].
  cbv beta iota in H.
  fold (draw_index env (store w)) in H. fold (draw_entry env (store w)) in H.
  destruct (draw_entry env (store w)) as [e|] eqn:He; [|done].
  cbv beta iota in H.
  destruct (FHE_allowThis env (LotteryEntry.encryptedNumber e)) eqn:Hat; [|done].
  cbv beta iota in H.
  destruct (FHE_allow env (LotteryEntry.encryptedNumber e) (owner (store w)))
    eqn:Hal; [|done].
  cbv beta iota in H.
  destruct (prizePool (store w) * 80 <=? MAX_UINT256) eqn:Hmul; [|done].
  cbv beta iota in H.
  destruct (100 =? 0) eqn:H100; [done|]. cbv beta iota in H.
  fold (draw_prize (store w)) in H.
  destruct (draw_prize (store w) <=? prizePool (store w)) eqn:Hsub; [|done].
  exists e. unfold draw_admitted.
  rewrite Ho, Ha, Hlen, Hbn, Hat, Hal, Hmul, Hsub.
  rewrite bool_decide_eq_true_2; done.
Qed.

Lemma drawWinner_inv call env w a w' :
  drawWinner call env w = Ok a w' ->
  exists e w1 w2,
    draw_admitted env e w = true /\
    call env (LotteryEntry.participant e) (draw_prize (store w))
      (draw_recorded env e w) = Ok true w1 /\
    call env (owner (store w1)) (draw_ownerFee (store w)) w1 = Ok true w2 /\
    roundNumber (store w2) + 1 <= MAX_UINT256 /\
    a = LotteryEntry.participant e /\
    w' = draw_closed env e w w2.
Proof.
  intros H. destruct (drawWinner_admitted _ _ _ _ _ H) as [e Hadm].
  rewrite (drawWinner_run call env e w Hadm) in H.
  destruct (call env (LotteryEntry.participant e) (draw_prize (store w))
              (draw_recorded env e w)) as [[|] w1|f] eqn:H1; [|done..].
  destruct (call env (owner (store w1)) (draw_ownerFee (store w)) w1)
    as [[|] w2|f] eqn:H2; [|done..].
  destruct (round_fits w2) eqn:Hr; [|done].
  injection H as <- <-. exists e, w1, w2.
  unfold round_fits in Hr. repeat split; try done. lia.
Qed.

(** ** Calls and their receipts *)

Lemma transact_with_reverted call env c w w' f :
  transact_with call env c w = (w', Reverted f) -> w' = w.
Proof.
  unfold transact_with. destruct (entry call env c w); intros [= ]; congruence.
Qed.

Lemma transact_with_success call env c w w' r :
  transact_with call env c w = (w', Success r) -> entry call env c w = Ok r w'.
Proof.
  unfold transact_with. destruct (entry call env c w); intros [= ]; congruence.
Qed.

Lemma transact_with_fail call env c w f :
  entry call env c w = Fail f -> transact_with call env c w = (w, Reverted f).
Proof. unfold transact_with. by intros ->. Qed.

Lemma entry_nonpayable call env c w :
  payable c = false ->
  entry call env c w =
    if msg_value env =? 0 then dispatch call env c w else Fail CallValueRejected.
Proof.
  intros Hp. unfold entry. rewrite Hp.
  destruct (msg_value env =? 0); reflexivity.
Qed.

Lemma entry_DrawWinner call env w :
  entry call env DrawWinner w =
    if msg_value env =? 0
    then match drawWinner call env w with
         | Ok a w' => Ok (RAddress a) w'
         | Fail f => Fail f
         end
    else Fail CallValueRejected.
Proof. by rewrite entry_nonpayable. Qed.

Lemma entry_EnterLottery call env h proof w :
  entry call env (EnterLottery h proof) w =
    match enterLottery env h proof (credit (msg_value env) w) with
    | Ok _ w' => Ok RUnit w'
    | Fail f => Fail f
    end.
Proof. reflexivity. Qed.

Lemma entry_EmergencyWithdraw call env w :
  entry call env EmergencyWithdraw w =
    if msg_value env =? 0
    then if msg_sender env =? owner (store w)
         then match call env (owner (store w)) (balance w) w with
              | Ok true w' => Ok RUnit w'
              | Ok false _ => Fail (RequireFailed "Withdrawal failed")
              | Fail f => Fail f
              end
         else Fail (RequireFailed "Only owner can call this function")
    else Fail CallValueRejected.
Proof.
  rewrite entry_nonpayable by reflexivity.
  destruct (msg_value env =? 0); [|done].
  cbn [dispatch]. unfold fmapM. unfold_sol. cbv beta iota zeta.
  destruct (msg_sender env =? owner (store w)); [|done].
  cbv beta iota.
  by destruct (call env (owner (store w)) (balance w) w) as [[|] ?|?].
Qed.

(** ** The other functions *)

Lemma enterLottery_inv env h proof w u w' :
  enterLottery env h proof w = Ok u w' ->
  isActive (store w) = true /\
  entryFee (store w) <= msg_value env /\
  entriesOf (store w) (msg_sender env) + 1 <= MAX_UINT256 /\
  prizePool (store w) + msg_value env <= MAX_UINT256 /\
  exists v, FHE_fromExternal env h proof = Some v /\ w' = enter_final env v w.
Proof.
  intros H. run_in H. injection H as <- <-.
  unfold entriesOf in *.
  cbn [store participantEntries prizePool set_entries set_participantEntries]
    in *.
  split; [done|]. split; [lia|]. split; [lia|]. split; [lia|].
  eexists. split; [done|]. reflexivity.
Qed.

Lemma enterLottery_run env h proof v w :
  isActive (store w) = true ->
  entryFee (store w) <= msg_value env ->
  FHE_fromExternal env h proof = Some v ->
  entriesOf (store w) (msg_sender env) + 1 <= MAX_UINT256 ->
  prizePool (store w) + msg_value env <= MAX_UINT256 ->
  enterLottery env h proof w = Ok tt (enter_final env v w).
Proof.
  intros Ha Hfee Hv Hn Hp.
  destruct (enterLottery env h proof w) as [[] w'|f] eqn:H.
  - apply enterLottery_inv in H as (_ & _ & _ & _ & v' & Hv' & ->). congruence.
  - exfalso. run_in H; try congruence; unfold entriesOf in *;
      cbn [store participantEntries prizePool set_entries
           set_participantEntries] in *; lia.
Qed.

Lemma setLotteryActive_inv env b w u w' :
  setLotteryActive env b w = Ok u w' ->
  msg_sender env = owner (store w) /\ w' = status_changed b w.
Proof. intros H. run_in H. injection H as <- <-. split; [lia|done]. Qed.

Lemma setEntryFee_inv env n w u w' :
  setEntryFee env n w = Ok u w' ->
  msg_sender env = owner (store w) /\ w' = fee_changed n w.
Proof. intros H. run_in H. injection H as <- <-. split; [lia|done]. Qed.

Lemma receive_inv env w u w' :
  receive env w = Ok u w' ->
  prizePool (store w) + msg_value env <= MAX_UINT256 /\ w' = donated env w.
Proof. intros H. run_in H. injection H as <- <-. split; [lia|done]. Qed.

Lemma fallback_inv env w u w' :
  fallback env w = Ok u w' ->
  prizePool (store w) + msg_value env <= MAX_UINT256 /\ w' = donated env w.
Proof. intros H. run_in H. injection H as <- <-. split; [lia|done]. Qed.

Lemma getLastWinner_inv w a w' :
  getLastWinner w = Ok a w' -> w' = w.
Proof. intros H. run_in H. by injection H as <- <-. Qed.

Lemma transact_with_effect call env c w w' r :
  transact_with call env c w = (w', Success r) -> effect call env c w w'.
Proof.
  intros H%transact_with_success.
  destruct c; cbn [effect];
    try (rewrite entry_nonpayable in H by reflexivity;
         destruct (msg_value env =? 0); [|done]);
    cbn [dispatch] in H; unfold fmapM, bind, ret in H.
  - rewrite entry_EnterLottery in H.
    destruct (enterLottery _ _ _ _) as [u w1|] eqn:He; [|done].
    injection H as <- <-. by apply enterLottery_inv in He.
  - destruct (drawWinner call env w) as [a w1|] eqn:Hd; [|done].
    injection H as <- <-.
    apply drawWinner_inv in Hd as (e & w1' & w2 & ? & ? & ? & ? & _ & ->).
    by exists e, w1', w2.
  - by injection H as <- <-.
  - by injection H as <- <-.
  - by injection H as <- <-.
  - by injection H as <- <-.
  - destruct (getLastWinner w) as [a w1|] eqn:Hg; [|done].
    injection H as <- <-. by apply getLastWinner_inv in Hg.
  - by injection H as <- <-.
  - by injection H as <- <-.
  - by injection H as <- <-.
  - by injection H as <- <-.
  - destruct (setLotteryActive env active w) as [u w1|] eqn:Hs; [|done].
    injection H as <- <-. by apply setLotteryActive_inv in Hs.
  - destruct (setEntryFee env newFee w) as [u w1|] eqn:Hs; [|done].
    injection H as <- <-. by apply setEntryFee_inv in Hs.
  - unfold emergencyWithdraw in H. unfold_sol_in H. cbv beta iota zeta in H.
    destruct (msg_sender env =? owner (store w)) eqn:Ho; [|done].
    cbv beta iota in H.
    destruct (call env (owner (store w)) (balance w) w) as [[|] w1|f] eqn:Hc;
      [|done..].
    cbv beta iota in H. injection H as <- <-. split; [lia|done].
  - unfold entry in H. cbn [payable dispatch] in H.
    unfold fmapM, bind, ret in H.
    destruct (receive env _) as [u w1|] eqn:Hs; [|done].
    injection H as <- <-. by apply receive_inv in Hs.
  - unfold entry in H. cbn [payable dispatch] in H.
    unfold fmapM, bind, ret in H.
    destruct (fallback env _) as [u w1|] eqn:Hs; [|done].
    injection H as <- <-. by apply fallback_inv in Hs.
Qed.

(** ** Payments and what they can do *)

Lemma call_value_total depth env to v w :
  exists b w', call_value depth env to v w = Ok b w'.
Proof.
  destruct depth as [|d]; cbn [call_value]; [by eauto|].
  destruct (v <=? balance w); [|by eauto].
  destruct (run_hook _ _ _ _); by eauto.
Qed.

Lemma call_value_false depth env to v w w' :
  call_value depth env to v w = Ok false w' -> w' = w.
Proof.
  destruct depth as [|d]; cbn [call_value]; [congruence|].
  destruct (v <=? balance w); [|congruence].
  destruct (run_hook _ _ _ _); congruence.
Qed.

Lemma call_value_true depth env to v w w' :
  call_value depth env to v w = Ok true w' ->
  exists d,
    depth = S d /\
    v <= balance w /\
    run_hook (call_value d) env (recipient env w to v) (debit to v w)
      = Some w'.
Proof.
  destruct depth as [|d]; cbn [call_value]; [congruence|].
  destruct (v <=? balance w) eqn:Hv; [|congruence].
  destruct (run_hook _ _ _ _) as [w1|] eqn:Hr; [|congruence].
  intros [= <-]. exists d. repeat split; try done. lia.
Qed.

Lemma call_value_quiet depth env to v w w' :
  quiet ->
  call_value depth env to v w = Ok true w' ->
  v <= balance w /\ w' = debit to v w.
Proof.
  intros Hq (d & _ & Hv & Hr)%call_value_true.
  destruct (Hq env w to v) as [E|E]; rewrite E in Hr; cbn in Hr.
  - by injection Hr as <-.
  - done.
Qed.

Lemma call_value_accepts d env to v w :
  call_ok (call_value (S d) env to v w) = true <->
  v <= balance w /\
  is_Some (run_hook (call_value d) env (recipient env w to v) (debit to v w)).
Proof.
  cbn [call_value]. destruct (v <=? balance w) eqn:Hv.
  - destruct (run_hook _ _ _ _) as [w1|] eqn:Hr; cbn [call_ok].
    + split; [|done]. intros _. split; [lia|by eexists].
    + split; [done|]. by intros [_ [? ?]].
  - cbn [call_ok]. split; [done|]. intros [? _]. lia.
Qed.

Lemma hook_all_True env h : hook_all (fun _ _ => True) env h.
Proof. induction h as [| |m k IH]; cbn [hook_all]; by auto. Qed.

(** A relation between worlds that every move of the contract
    respects is respected by payments, transactions and runs. *)
Section Respect.

Variable R : World -> World -> Prop.
Variable ok : Env -> Call -> Prop.

Hypothesis R_refl : forall w, R w w.
Hypothesis R_trans : forall a b c, R a b -> R b c -> R a c.
Hypothesis R_enter : forall env h proof v w,
  ok env (EnterLottery h proof) ->
  isActive (store w) = true ->
  entryFee (store w) <= msg_value env ->
  entriesOf (store w) (msg_sender env) + 1 <= MAX_UINT256 ->
  prizePool (store w) + msg_value env <= MAX_UINT256 ->
  R w (enter_final env v (credit (msg_value env) w)).
Hypothesis R_donate : forall env c w,
  ok env c ->
  prizePool (store w) + msg_value env <= MAX_UINT256 ->
  R w (donated env (credit (msg_value env) w)).
Hypothesis R_status : forall b w, R w (status_changed b w).
Hypothesis R_fee : forall env n w,
  ok env (SetEntryFee n) -> R w (fee_changed n w).
Hypothesis R_debit : forall to v w, v <= balance w -> R w (debit to v w).
Hypothesis R_draw : forall env e w w1 w2,
  draw_admitted env e w = true ->
  roundNumber (store w2) + 1 <= MAX_UINT256 ->
  R (draw_recorded env e w) w1 ->
  R w1 w2 ->
  R w (draw_closed env e w w2).

Lemma respect_transact_with call :
  (forall env to v w b w', call env to v w = Ok b w' -> R w w') ->
  forall env c w w' rc,
    ok env c -> transact_with call env c w = (w', rc) -> R w w'.
Proof.
  intros Hcall env c w w' [r|f] Hok Ht.
  2:{ apply transact_with_reverted in Ht as ->. apply R_refl. }
  apply transact_with_effect in Ht.
  destruct c; cbn [effect] in Ht;
    try (rewrite Ht; apply R_refl).
  - destruct Ht as (? & ? & ? & ? & v & _ & ->). by eapply R_enter.
  - destruct Ht as (e & w1 & w2 & Hadm & H1 & H2 & Hr & ->).
    eapply R_draw; eauto.
  - destruct Ht as [_ ->]. apply R_status.
  - destruct Ht as [_ ->]. by eapply R_fee.
  - destruct Ht as [_ Hc]. by eapply Hcall.
  - destruct Ht as [? ->]. by eapply R_donate.
  - destruct Ht as [? ->]. by eapply R_donate.
Qed.

Lemma respect_hook call env h :
  (forall env to v w b w', call env to v w = Ok b w' -> R w w') ->
  hook_all ok env h ->
  forall w w', run_hook call env h w = Some w' -> R w w'.
Proof.
  intros Hcall. induction h as [| |m k IH]; intros Hh w w' Hr;
    cbn [run_hook] in Hr.
  - injection Hr as <-. apply R_refl.
  - done.
  - destruct Hh as [Hm Hk].
    destruct (transact_with call (nested env m) (msg_call m) w) as [w1 rc]
      eqn:Ht.
    cbn [fst snd] in Hr.
    eapply R_trans; [by eapply respect_transact_with|].
    eapply IH; [apply Hk|exact Hr].
Qed.

Lemma respect_call_value depth :
  hooks_ok ok ->
  forall env to v w b w', call_value depth env to v w = Ok b w' -> R w w'.
Proof.
  intros Hh. induction depth as [|d IH]; intros env to v w b w' Hc.
  - cbn in Hc. injection Hc as _ <-. apply R_refl.
  - destruct b.
    + apply call_value_true in Hc as (d' & [= <-] & Hv & Hr).
      eapply R_trans; [by apply R_debit|].
      eapply respect_hook; [exact IH|apply Hh|exact Hr].
    + apply call_value_false in Hc as ->. apply R_refl.
Qed.

Lemma respect_transact depth env c w w' rc :
  hooks_ok ok -> ok env c -> transact depth env c w = (w', rc) -> R w w'.
Proof.
  intros Hh Hok Ht. unfold transact in Ht.
  eapply respect_transact_with; [|exact Hok|exact Ht].
  by apply respect_call_value.
Qed.

Lemma respect_step depth w tx :
  hooks_ok ok -> ok (fst tx) (snd tx) -> R w (step depth w tx).
Proof.
  intros Hh Hok. unfold step.
  destruct (transact depth (fst tx) (snd tx) w) as [w' rc] eqn:Ht.
  cbn [fst]. by eapply respect_transact.
Qed.

Lemma respect_run depth txs :
  hooks_ok ok ->
  Forall (fun tx => ok (fst tx) (snd tx)) txs ->
  forall w, R w (run depth txs w).
Proof.
  intros Hh Hs. induction Hs as [|tx txs Htx _ IH]; intros w;
    cbn [run fold_left].
  - apply R_refl.
  - eapply R_trans; [by apply respect_step|]. apply IH.
Qed.

End Respect.

(** ** How the world evolves *)

Lemma entriesOf_insert s k v a :
  default 0 (<[k := v]> (participantEntries s) !! a) =
    if decide (a = k) then v else entriesOf s a.
Proof.
  unfold entriesOf. destruct (decide (a = k)) as [->|Hne].
  - by rewrite lookup_insert_eq.
  - by rewrite lookup_insert_ne.
Qed.

Lemma entriesOf_enter_final env v w a :
  entriesOf (store (enter_final env v w)) a =
    if decide (a = msg_sender env)
    then entriesOf (store w) (msg_sender env) + 1
    else entriesOf (store w) a.
Proof.
  unfold entriesOf at 1. unfold enter_final.
  cbn [store participantEntries set_prizePool set_participantEntries
       set_entries].
  apply entriesOf_insert.
Qed.

Lemma wonOf_recorded env e w a :
  wonOf (store (draw_recorded env e w)) a =
    if decide (a = LotteryEntry.participant e) then true
    else wonOf (store w) a.
Proof.
  unfold wonOf, draw_recorded. cbn [store hasWon set_winners set_hasWon].
  destruct (decide (a = LotteryEntry.participant e)) as [->|Hne].
  - by rewrite lookup_insert_eq.
  - by rewrite lookup_insert_ne.
Qed.

Lemma evolves_refl w : evolves w w.
Proof. unfold evolves. repeat split; try done; intros; lia. Qed.

Lemma evolves_trans a b c : evolves a b -> evolves b c -> evolves a c.
Proof.
  intros (Ho1 & Hn1 & Hw1 & He1 & Ht1 & Hf1 & Hr1)
         (Ho2 & Hn2 & Hw2 & He2 & Ht2 & Hf2 & Hr2).
  unfold evolves. repeat split.
  - congruence.
  - intros x. specialize (Hn1 x). specialize (Hn2 x). lia.
  - by etrans.
  - by etrans.
  - by etrans.
  - intros x Hx. by apply Hf2, Hf1.
  - lia.
Qed.

Lemma evolves_enter env v w :
  evolves w (enter_final env v (credit (msg_value env) w)).
Proof.
  unfold evolves. repeat split; try done.
  - intros a. rewrite entriesOf_enter_final. cbn [credit store].
    destruct (decide (a = msg_sender env)) as [->|_]; lia.
  - by apply prefix_app_r.
  - cbn. lia.
Qed.

Lemma evolves_donate env w :
  evolves w (donated env (credit (msg_value env) w)).
Proof. unfold evolves. repeat split; try done; intros; cbn; lia. Qed.

Lemma evolves_status b w : evolves w (status_changed b w).
Proof.
  unfold evolves. repeat split; try done; try (intros; cbn; lia).
  by apply prefix_app_r.
Qed.

Lemma evolves_fee n w : evolves w (fee_changed n w).
Proof. unfold evolves. repeat split; try done; intros; cbn; lia. Qed.

Lemma evolves_debit to v w : evolves w (debit to v w).
Proof.
  unfold evolves. repeat split; try done; try (intros; cbn; lia).
  by apply prefix_app_r.
Qed.

Lemma evolves_draw env e w w1 w2 :
  evolves (draw_recorded env e w) w1 ->
  evolves w1 w2 ->
  evolves w (draw_closed env e w w2).
Proof.
  intros H1 H2.
  destruct (evolves_trans _ _ _ H1 H2) as (Ho & Hn & Hw & He & Ht & Hf & Hr).
  unfold evolves. repeat split.
  - exact Ho.
  - exact Hn.
  - etrans; [|exact Hw]. by apply prefix_app_r.
  - etrans; [exact He|]. cbn [draw_closed events].
    rewrite <- app_assoc. by apply prefix_app_r.
  - exact Ht.
  - intros a Ha. apply Hf. rewrite wonOf_recorded.
    by destruct (decide (a = LotteryEntry.participant e)).
  - cbn [draw_recorded draw_closed store winners roundNumber set_winners
         set_hasWon set_roundNumber set_prizePool set_entries] in *.
    rewrite length_app in Hr. cbn [length] in Hr. lia.
Qed.

Lemma call_value_evolves depth env to v w b w' :
  call_value depth env to v w = Ok b w' -> evolves w w'.
Proof.
  apply (respect_call_value evolves (fun _ _ => True));
    eauto using evolves_refl, evolves_trans, evolves_enter, evolves_donate,
      evolves_status, evolves_fee, evolves_debit, evolves_draw.
  intros ? ? ? ?. apply hook_all_True.
Qed.

Lemma transact_evolves depth env c w w' rc :
  transact depth env c w = (w', rc) -> evolves w w'.
Proof.
  apply (respect_transact evolves (fun _ _ => True));
    eauto using evolves_refl, evolves_trans, evolves_enter, evolves_donate,
      evolves_status, evolves_fee, evolves_debit, evolves_draw.
  intros ? ? ? ?. apply hook_all_True.
Qed.

Lemma step_evolves depth w tx : evolves w (step depth w tx).
Proof.
  unfold step.
  destruct (transact depth (fst tx) (snd tx) w) as [w' rc] eqn:Ht.
  cbn [fst]. by eapply transact_evolves.
Qed.

Lemma run_evolves depth txs w : evolves w (run depth txs w).
Proof.
  revert w. induction txs as [|tx txs IH]; intros w; cbn [run fold_left].
  - apply evolves_refl.
  - eapply evolves_trans; [apply step_evolves|apply IH].
Qed.

(** ** The draw as a transaction *)

(** The prize pool is kept, unless a draw is recorded, by every move
    of the contract that comes with a non-negative amount. *)
Lemma pool_kept_refl w : pool_kept w w.
Proof. split; [done|]. left. lia. Qed.

Lemma pool_kept_trans a b c : pool_kept a b -> pool_kept b c -> pool_kept a c.
Proof.
  intros [La Ha] [Lb Hb]. split; [lia|].
  destruct Ha as [Ha|Ha]; [|right; lia].
  destruct Hb as [Hb|Hb]; [left; lia|right; lia].
Qed.

Lemma pool_kept_draw env e w w1 w2 :
  pool_kept (draw_recorded env e w) w1 ->
  pool_kept w1 w2 ->
  pool_kept w (draw_closed env e w w2).
Proof.
  intros [L1 _] [L2 _].
  cbn [draw_recorded store winners set_winners] in L1.
  rewrite length_app in L1. cbn [length] in L1.
  unfold pool_kept.
  change (winners (store (draw_closed env e w w2))) with (winners (store w2)).
  split; [lia|]. right. lia.
Qed.


Lemma step_pool_kept depth env c w :
  hooks_ok (fun env _ => 0 <= msg_value env) ->
  0 <= msg_value env ->
  pool_kept w (step depth w (env, c)).
Proof.
  intros Hh Hv.
  apply (respect_step pool_kept (fun env _ => 0 <= msg_value env));
    eauto using pool_kept_refl, pool_kept_trans, pool_kept_draw.
  - intros env0 h proof v0 w0 Hv0 _ _ _ _. split; [done|]. left. cbn. lia.
  - intros env0 c0 w0 Hv0 _. split; [done|]. left. cbn. lia.
  - intros b0 w0. split; [done|]. left. cbn. lia.
  - intros env0 n w0 _. split; [done|]. left. cbn. lia.
  - intros to0 v0 w0 _. split; [done|]. left. cbn. lia.
Qed.

Lemma winner_transfer_eq depth env e w :
  winner_transfer depth env e w =
    Ok (winner_transfer_ok depth env e w) (draw_paid_winner depth env e w).
Proof.
  unfold winner_transfer_ok, draw_paid_winner.
  destruct (call_value_total depth env (LotteryEntry.participant e)
              (draw_prize (store w)) (draw_recorded env e w)) as (b & w' & H).
  unfold winner_transfer. by rewrite H.
Qed.

Lemma owner_transfer_eq depth env e w :
  owner_transfer depth env e w =
    Ok (owner_transfer_ok depth env e w) (draw_paid_owner depth env e w).
Proof.
  unfold owner_transfer_ok, draw_paid_owner.
  destruct (call_value_total depth env
              (owner (store (draw_paid_winner depth env e w)))
              (draw_ownerFee (store w)) (draw_paid_winner depth env e w))
    as (b & w' & H).
  unfold owner_transfer. by rewrite H.
Qed.

Lemma drawWinner_run_at depth env e w :
  draw_admitted env e w = true ->
  drawWinner (call_value depth) env w =
    if winner_transfer_ok depth env e w then
      if owner_transfer_ok depth env e w then
        if round_fits (draw_paid_owner depth env e w)
        then Ok (LotteryEntry.participant e) (draw_final depth env e w)
        else Fail (Panic 17)
      else Fail (RequireFailed "Fee transfer to owner failed")
    else Fail (RequireFailed "Prize transfer to winner failed").
Proof.
  intros Hadm. rewrite (drawWinner_run _ env e w Hadm).
  fold (winner_transfer depth env e w). rewrite winner_transfer_eq.
  destruct (winner_transfer_ok depth env e w); [|done].
  fold (owner_transfer depth env e w). rewrite owner_transfer_eq.
  destruct (owner_transfer_ok depth env e w); [|done].
  reflexivity.
Qed.

Lemma draw_success depth env w w' r :
  transact depth env DrawWinner w = (w', Success r) ->
  msg_value env = 0 /\
  exists e,
    draw_admitted env e w = true /\
    winner_transfer_ok depth env e w = true /\
    owner_transfer_ok depth env e w = true /\
    round_fits (draw_paid_owner depth env e w) = true /\
    r = RAddress (LotteryEntry.participant e) /\
    w' = draw_final depth env e w.
Proof.
  intros H%transact_with_success. rewrite entry_DrawWinner in H.
  destruct (msg_value env =? 0) eqn:Hv; [|done].
  split; [lia|].
  destruct (drawWinner (call_value depth) env w) as [a w1|] eqn:Hd; [|done].
  injection H as <- <-.
  destruct (drawWinner_admitted _ _ _ _ _ Hd) as [e Hadm].
  rewrite (drawWinner_run_at depth env e w Hadm) in Hd.
  destruct (winner_transfer_ok depth env e w) eqn:Hw; [|done].
  destruct (owner_transfer_ok depth env e w) eqn:Ho; [|done].
  destruct (round_fits (draw_paid_owner depth env e w)) eqn:Hr; [|done].
  injection Hd as <- <-. by exists e.
Qed.

Lemma transact_reverted depth env c w w' f :
  transact depth env c w = (w', Reverted f) -> w' = w.
Proof. apply transact_with_reverted. Qed.

Lemma transact_effect depth env c w w' r :
  transact depth env c w = (w', Success r) ->
  effect (call_value depth) env c w w'.
Proof. apply transact_with_effect. Qed.

(** The worlds of a draw evolve from one another. *)
Lemma draw_worlds_evolve depth env e w :
  evolves (draw_recorded env e w) (draw_paid_winner depth env e w) /\
  evolves (draw_paid_winner depth env e w) (draw_paid_owner depth env e w).
Proof.
  split.
  - eapply call_value_evolves. apply winner_transfer_eq.
  - eapply call_value_evolves. apply owner_transfer_eq.
Qed.

(** What the worlds of a draw are when no recipient calls back. *)
Lemma draw_paid_winner_quiet depth env e w :
  quiet ->
  winner_transfer_ok depth env e w = true ->
  draw_prize (store w) <= balance w /\
  draw_paid_winner depth env e w =
    debit (LotteryEntry.participant e) (draw_prize (store w))
      (draw_recorded env e w).
Proof.
  intros Hq Hok. pose proof (winner_transfer_eq depth env e w) as H.
  rewrite Hok in H. unfold winner_transfer in H.
  by apply call_value_quiet in H.
Qed.

Lemma draw_paid_owner_quiet depth env e w :
  quiet ->
  winner_transfer_ok depth env e w = true ->
  owner_transfer_ok depth env e w = true ->
  draw_prize (store w) + draw_ownerFee (store w) <= balance w /\
  draw_paid_owner depth env e w =
    debit (owner (store w)) (draw_ownerFee (store w))
      (debit (LotteryEntry.participant e) (draw_prize (store w))
         (draw_recorded env e w)).
Proof.
  intros Hq Hw Ho.
  destruct (draw_paid_winner_quiet depth env e w Hq Hw) as [Hb1 E1].
  pose proof (owner_transfer_eq depth env e w) as H.
  rewrite Ho in H. unfold owner_transfer in H.
  apply call_value_quiet in H as [Hb2 E2]; [|done].
  rewrite E2, E1. rewrite E1 in Hb2. cbn in Hb2.
  split; [lia|reflexivity].
Qed.

Lemma hook_evolves depth env h w w' :
  run_hook (call_value depth) env h w = Some w' -> evolves w w'.
Proof.
  apply (respect_hook evolves (fun _ _ => True));
    eauto using evolves_refl, evolves_trans, evolves_enter, evolves_donate,
      evolves_status, evolves_fee, evolves_debit, evolves_draw,
      call_value_evolves.
  apply hook_all_True.
Qed.

(** A payment that succeeds records its transfer first; what follows in
    [transfers] comes from the recipient's calls. *)
Lemma call_value_transfers depth env to v w w' :
  call_value depth env to v w = Ok true w' ->
  exists inner,
    transfers w' = transfers w ++ (to, v) :: inner /\
    (quiet -> inner = [] /\ w' = debit to v w).
Proof.
  intros Hc. pose proof Hc as (d & _ & _ & Hr)%call_value_true.
  destruct (hook_evolves d env _ _ _ Hr) as (_ & _ & _ & _ & [inner Ht] & _).
  exists inner. split.
  - rewrite Ht. cbn [debit transfers]. by rewrite <- app_assoc.
  - intros Hq. apply (call_value_quiet _ _ _ _ _ _ Hq) in Hc as [_ E].
    split; [|done]. rewrite E in Ht. cbn [debit transfers] in Ht.
    symmetry in Ht. rewrite <- (app_nil_r (transfers w ++ [(to, v)])) in Ht at 2.
    by apply app_inv_head in Ht.
Qed.

(** ** Properties of the draw *)

(** C1. When either payout of a draw fails (the transfer of the prize
    to the winner, or the transfer of the fee to the owner), the
    transaction is rejected and the world after it - storage, ether
    held, events, transfers made - is the world before it, whatever the
    recipients did while they held control.  For a draw that had passed
    its checks, the rejection is the [require] that follows the failed
    transfer. *)
Theorem drawWinner_failed_payout_atomic depth env e w :
  draw_entry env (store w) = Some e ->
  winner_transfer_ok depth env e w = false \/
  owner_transfer_ok depth env e w = false ->
  exists f,
    transact depth env DrawWinner w = (w, Reverted f) /\
    (msg_value env = 0 -> draw_admitted env e w = true ->
     f = RequireFailed
           (if winner_transfer_ok depth env e w
            then "Fee transfer to owner failed"
            else "Prize transfer to winner failed")).
Proof.
  intros He Hfail.
  destruct (transact depth env DrawWinner w) as [w' [r|f]] eqn:Ht.
  - apply draw_success in Ht as (_ & e' & Hadm & Hw & Ho & _).
    apply draw_admitted_entry in Hadm. simplify_eq.
    destruct Hfail; congruence.
  - pose proof (transact_reverted _ _ _ _ _ _ Ht) as ->.
    exists f. split; [done|]. intros Hv Hadm.
    unfold transact, transact_with in Ht. rewrite entry_DrawWinner in Ht.
    rewrite Hv in Ht. change (0 =? 0) with true in Ht. cbv iota in Ht.
    rewrite (drawWinner_run_at depth env e w Hadm) in Ht.
    destruct (winner_transfer_ok depth env e w); [|congruence].
    destruct (owner_transfer_ok depth env e w); [|congruence].
    destruct Hfail; discriminate.
Qed.




Lemma draw_payouts depth env e w :
  winner_transfer_ok depth env e w = true ->
  owner_transfer_ok depth env e w = true ->
  exists inner1 inner2,
    transfers (draw_paid_owner depth env e w) =
      transfers w ++
        [(LotteryEntry.participant e, draw_prize (store w))] ++ inner1 ++
        [(owner (store w), draw_ownerFee (store w))] ++ inner2 /\
    (quiet ->
     inner1 = [] /\ inner2 = [] /\
     draw_prize (store w) + draw_ownerFee (store w) <= balance w /\
     draw_paid_owner depth env e w =
       debit (owner (store w)) (draw_ownerFee (store w))
         (debit (LotteryEntry.participant e) (draw_prize (store w))
            (draw_recorded env e w))).
Proof.
  intros Hw Ho.
  pose proof (winner_transfer_eq depth env e w) as H1. rewrite Hw in H1.
  pose proof (owner_transfer_eq depth env e w) as H2. rewrite Ho in H2.
  unfold winner_transfer in H1. unfold owner_transfer in H2.
  assert (owner (store (draw_paid_winner depth env e w)) = owner (store w))
    as Eo.
  { by destruct (call_value_evolves _ _ _ _ _ _ _ H1) as (-> & _). }
  rewrite Eo in H2.
  apply call_value_transfers in H1 as (inner1 & T1 & Q1).
  apply call_value_transfers in H2 as (inner2 & T2 & Q2).
  exists inner1, inner2. split.
  - rewrite T2, T1. cbn [draw_recorded transfers].
    rewrite <- !app_assoc. reflexivity.
  - intros Hq. destruct (Q1 Hq) as [-> _]. destruct (Q2 Hq) as [-> _].
    destruct (draw_paid_owner_quiet depth env e w Hq Hw Ho) as [Hb E].
    done.
Qed.

(** C3. In a successful draw the contract pays floor(pool * 80 / 100)
    to the winner and then pool minus that amount to the owner, where
    pool is the prize pool when the draw starts; the two amounts add up
    to the pool.  These are the draw's only transfers: anything else in
    the record of transfers was sent by calls that the two recipients
    made while they were being paid, and when no recipient calls back
    the two payouts are all that is recorded and the pool is what has
    left the contract. *)
Theorem drawWinner_payout_split depth env w w' r :
  transact depth env DrawWinner w = (w', Success r) ->
  exists e inner1 inner2,
    draw_entry env (store w) = Some e /\
    r = RAddress (LotteryEntry.participant e) /\
    let pool := prizePool (store w) in
    let payoutToWinner := pool * 80 / 100 in
    let payoutToOwner := pool - payoutToWinner in
    transfers w' =
      transfers w ++
        [(LotteryEntry.participant e, payoutToWinner)] ++ inner1 ++
        [(owner (store w), payoutToOwner)] ++ inner2 /\
    payoutToWinner + payoutToOwner = pool /\
    (quiet ->
     transfers w' =
       transfers w ++
         [(LotteryEntry.participant e, payoutToWinner);
          (owner (store w), payoutToOwner)] /\
     balance w' = balance w - pool).
Proof.
  intros (_ & e & Hadm & Hw & Ho & _ & -> & ->)%draw_success.
  destruct (draw_payouts depth env e w Hw Ho) as (inner1 & inner2 & Ht & Hq).
  exists e, inner1, inner2.
  split; [by apply draw_admitted_entry|]. split; [done|].
  cbv zeta. split; [exact Ht|]. split; [lia|].
  intros Hquiet. destruct (Hq Hquiet) as (-> & -> & _ & E).
  unfold draw_final. cbn [draw_closed transfers balance].
  split.
  - rewrite Ht. reflexivity.
  - rewrite E. unfold draw_ownerFee, draw_prize. cbn. lia.
Qed.

Lemma draw_final_winners depth env e w :
  exists more,
    winners (store (draw_final depth env e w)) =
      winners (store w) ++
        [Winner.mk (LotteryEntry.participant e) (draw_prize (store w)) 0
           (block_timestamp env)] ++ more.
Proof.
  destruct (draw_worlds_evolve depth env e w) as [H1 H2].
  destruct (evolves_trans _ _ _ H1 H2) as (_ & _ & [more Hw] & _).
  exists more. unfold draw_final. cbn [draw_closed store winners
    set_roundNumber set_prizePool set_entries].
  rewrite Hw. cbn [draw_recorded store winners set_winners].
  by rewrite <- app_assoc.
Qed.

(** C4 (amended). After a successful draw there is no entry left and
    the prize pool is 0.  The round number has advanced by the number
    of winners recorded during the call: by 1 for the draw itself, and
    by 1 more for each draw that a recipient made while it was being
    paid.  It is the round before the draw plus 1 when no recipient
    calls back. *)
Theorem drawWinner_resets_round depth env w w' r :
  transact depth env DrawWinner w = (w', Success r) ->
  entries (store w') = [] /\
  Z.of_nat (length (entries (store w'))) = 0 /\
  prizePool (store w') = 0 /\
  roundNumber (store w') =
    roundNumber (store w) +
      (Z.of_nat (length (winners (store w'))) -
       Z.of_nat (length (winners (store w)))) /\
  roundNumber (store w) + 1 <= roundNumber (store w') /\
  (quiet -> roundNumber (store w') = roundNumber (store w) + 1).
Proof.
  intros Ht.
  pose proof (transact_evolves _ _ _ _ _ _ Ht) as (_ & _ & _ & _ & _ & _ & Hr).
  apply draw_success in Ht as (_ & e & _ & Hw & Ho & _ & _ & ->).
  destruct (draw_final_winners depth env e w) as [more Hm].
  rewrite Hm, !length_app in Hr. cbn [length] in Hr.
  split; [done|]. split; [done|]. split; [done|].
  split; [rewrite Hm, !length_app; cbn [length]; lia|].
  split; [lia|].
  intros Hq. destruct (draw_paid_owner_quiet depth env e w Hq Hw Ho) as [_ E].
  unfold draw_final. rewrite E. cbn. lia.
Qed.

(** ** Entering *)

(** C5. A successful entry - which needs the lottery active and a
    payment of at least the fee - appends exactly one entry, of the
    caller, raises the caller's entry count by exactly 1 and nobody
    else's, and adds the whole payment to the prize pool.  The whole
    payment stays in the contract: its balance grows by it and nothing
    is sent back. *)
Theorem enterLottery_effects depth env h proof w w' r :
  transact depth env (EnterLottery h proof) w = (w', Success r) ->
  isActive (store w) = true /\
  entryFee (store w) <= msg_value env /\
  (exists v,
     entries (store w') =
       entries (store w) ++
         [LotteryEntry.mk (msg_sender env) v (block_timestamp env)]) /\
  Z.of_nat (length (entries (store w'))) =
    Z.of_nat (length (entries (store w))) + 1 /\
  entriesOf (store w') (msg_sender env) =
    entriesOf (store w) (msg_sender env) + 1 /\
  (forall a, a <> msg_sender env ->
     entriesOf (store w') a = entriesOf (store w) a) /\
  prizePool (store w') = prizePool (store w) + msg_value env /\
  balance w' = balance w + msg_value env /\
  transfers w' = transfers w.
Proof.
  intros (Ha & Hfee & _ & _ & v & Hv & ->)%transact_effect.
  split; [done|]. split; [done|]. split; [by exists v|].
  unfold enter_final, credit, entriesOf.
  cbn [store entries participantEntries prizePool balance transfers
       set_entries set_participantEntries set_prizePool].
  split; [rewrite length_app; cbn [length]; lia|].
  split; [by rewrite lookup_insert_eq|].
  split; [|done].
  intros a Hne. by rewrite lookup_insert_ne.
Qed.

(** ** Rejected calls *)

(** C6. A call that fails leaves the world as it was.  The calls the
    contract is meant to turn down do fail: an entry paying less than
    the fee, an entry while the lottery is inactive, a draw without
    entries, and drawWinner, setLotteryActive, setEntryFee or
    emergencyWithdraw called by anyone but the owner. *)
Theorem rejected_calls_change_nothing depth env c w :
  (forall w' f, transact depth env c w = (w', Reverted f) -> w' = w) /\
  (guard_violated env c w ->
   exists f, transact depth env c w = (w, Reverted f)).
Proof.
  split; [intros w' f; apply transact_reverted|].
  intros Hg.
  destruct (transact depth env c w) as [w' [r|f]] eqn:Ht.
  - exfalso. destruct c; cbn [guard_violated] in Hg; try done.
    + apply transact_effect in Ht as (Ha & Hfee & _).
      destruct Hg; [lia|congruence].
    + apply draw_success in Ht as (_ & e & Hadm & _).
      pose proof (draw_admitted_entry _ _ _ Hadm) as He.
      apply draw_admitted_owner in Hadm as [Ho _].
      destruct Hg as [Hnil|Hno]; [|done].
      unfold draw_entry in He. rewrite Hnil in He. done.
    + by apply transact_effect in Ht as [Hown _].
    + by apply transact_effect in Ht as [Hown _].
    + by apply transact_effect in Ht as [Hown _].
  - apply transact_reverted in Ht as Hw. subst w'. by exists f.
Qed.

(** ** Lifetime properties *)

(** C7. For every address the lifetime entry count never decreases,
    whatever sequence of transactions the contract goes through and
    whatever calls recipients make while they are paid.  In particular
    a successful draw, with its round reset, never lowers or clears a
    count; when no recipient calls back it leaves the whole
    [participantEntries] mapping as it was. *)
Theorem participantEntries_monotone :
  (forall depth txs w a,
     entriesOf (store w) a <= entriesOf (store (run depth txs w)) a) /\
  (forall depth env w w' r,
     transact depth env DrawWinner w = (w', Success r) ->
     (forall a, entriesOf (store w) a <= entriesOf (store w') a) /\
     (quiet -> participantEntries (store w') = participantEntries (store w))).
Proof.
  split.
  - intros depth txs w a.
    by destruct (run_evolves depth txs w) as (_ & Hn & _).
  - intros depth env w w' r Ht. split.
    + by destruct (transact_evolves _ _ _ _ _ _ Ht) as (_ & Hn & _).
    + intros Hq.
      apply draw_success in Ht as (_ & e & _ & Hw & Ho & _ & _ & ->).
      destruct (draw_paid_owner_quiet depth env e w Hq Hw Ho) as [_ E].
      unfold draw_final. by rewrite E.
Qed.

(** ** Owner functions *)

Lemma enter_below_fee_rejected depth env h proof w :
  msg_value env < entryFee (store w) ->
  exists f, transact depth env (EnterLottery h proof) w = (w, Reverted f).
Proof.
  intros Hlt.
  destruct (transact depth env (EnterLottery h proof) w) as [w' [r|f]] eqn:Ht.
  - apply transact_effect in Ht as (_ & Hfee & _). lia.
  - apply transact_reverted in Ht as Hw. subst w'. by exists f.
Qed.

(** C8 (amended). A successful setLotteryActive emits
    LotteryStatusChanged with the new status.  A successful setEntryFee
    emits no event: it replaces the fee and nothing else, and an entry
    made afterwards with a smaller payment is rejected. *)
Theorem owner_setters_events depth env w w' r :
  (forall active,
     transact depth env (SetLotteryActive active) w = (w', Success r) ->
     events w' = events w ++ [LotteryStatusChanged active] /\
     store w' = set_isActive active (store w)) /\
  (forall newFee,
     transact depth env (SetEntryFee newFee) w = (w', Success r) ->
     events w' = events w /\
     store w' = set_entryFee newFee (store w) /\
     entryFee (store w') = newFee /\
     forall depth' env' h proof,
       msg_value env' < newFee ->
       exists f,
         transact depth' env' (EnterLottery h proof) w' = (w', Reverted f)).
Proof.
  split.
  - intros active [_ ->]%transact_effect. done.
  - intros newFee [_ ->]%transact_effect.
    split; [done|]. split; [done|]. split; [done|].
    intros depth' env' h proof Hlt. by apply enter_below_fee_rejected.
Qed.

(** ** The history of winners *)

Lemma sweep_or_draw_only depth env c w w' r :
  transact depth env c w = (w', Success r) ->
  c = DrawWinner \/ c = EmergencyWithdraw \/
  (winners (store w') = winners (store w) /\
   roundNumber (store w') = roundNumber (store w) /\
   hasWon (store w') = hasWon (store w) /\
   transfers w' = transfers w).
Proof.
  intros He%transact_effect.
  destruct c; cbn [effect] in He; try tauto;
    try (right; right; by rewrite He);
    try (right; right; by rewrite (proj2 He)).
  - right. right. by destruct He as (_ & _ & _ & _ & v & _ & ->).
Qed.

(** C9 (amended). A successful draw appends to [winners] a record of
    its own: the participant of the selected entry, the prize paid, the
    block timestamp, and as winning number the placeholder 0 - the
    entry's encrypted number is not copied into the record.  Records
    that follow it within the same call belong to draws that
    recipients made while they were being paid; there are none when no
    recipient calls back.  A transaction that is neither a successful
    draw nor a withdrawal during which the owner draws leaves [winners]
    as it is, and along any sequence of transactions the earlier
    history stays a prefix of the later one. *)
Theorem winners_append_only :
  (forall depth env w w' r,
     transact depth env DrawWinner w = (w', Success r) ->
     exists e more,
       draw_entry env (store w) = Some e /\
       e ∈ entries (store w) /\
       r = RAddress (LotteryEntry.participant e) /\
       winners (store w') =
         winners (store w) ++
           [Winner.mk (LotteryEntry.participant e)
              (prizePool (store w) * 80 / 100) 0 (block_timestamp env)] ++
           more /\
       (quiet -> more = [])) /\
  (forall depth env c w w' rc,
     transact depth env c w = (w', rc) ->
     (((exists r, rc = Success r) /\
       (c = DrawWinner \/ c = EmergencyWithdraw)) \/
      winners (store w') = winners (store w)) /\
     (quiet ->
      (c = DrawWinner /\ exists r, rc = Success r) \/
      winners (store w') = winners (store w))) /\
  (forall depth txs w,
     winners (store w) `prefix_of` winners (store (run depth txs w))).
Proof.
  split; [|split].
  - intros depth env w w' r
      (_ & e & Hadm & Hw & Ho & _ & -> & ->)%draw_success.
    apply draw_admitted_entry in Hadm.
    destruct (draw_final_winners depth env e w) as [more Hm].
    exists e, more. split; [done|]. split; [by eapply draw_entry_member|].
    split; [done|]. split; [exact Hm|].
    intros Hq. destruct (draw_paid_owner_quiet depth env e w Hq Hw Ho) as [_ E].
    unfold draw_final in Hm. rewrite E in Hm.
    cbn [draw_closed debit draw_recorded store winners set_roundNumber
         set_prizePool set_entries set_winners] in Hm.
    apply app_inv_head in Hm.
    rewrite <- (app_nil_r [_]) in Hm at 1. by apply app_inv_head in Hm.
  - intros depth env c w w' [r|f] Ht.
    2:{ apply transact_reverted in Ht as ->. split; [by right|]. by right. }
    destruct (sweep_or_draw_only _ _ _ _ _ _ Ht) as [->|[->|(Hw & _)]].
    + split; [left|intros _; left]; eauto.
    + split; [left; eauto|].
      intros Hq. right. apply transact_effect in Ht as [_ Hc].
      by apply (call_value_quiet _ _ _ _ _ _ Hq) in Hc as [_ ->].
    + split; [by right|]. by right.
  - intros depth txs w.
    by destruct (run_evolves depth txs w) as (_ & _ & Hw & _).
Qed.

(** ** Emergency withdrawal *)


(** * Further properties of the contract *)

(** ** Why a draw can fail *)

Lemma drawWinner_fail_cases call env w f :
  drawWinner call env w = Fail f ->
  (f = RequireFailed "Only owner can call this function" \/
   f = RequireFailed "Lottery is not active" \/
   f = RequireFailed "No entries in lottery" \/
   f = PermissionRejected \/
   f = RequireFailed "Prize transfer to winner failed" \/
   f = RequireFailed "Fee transfer to owner failed" \/
   f = Panic 17) \/
  exists to v w0, call env to v w0 = Fail f.
Proof.
  intros H. run_in H.
  all: try (injection H as <-; tauto).
  all: try (injection H as <-; right; by eauto).
  all: try lia.
  all: try done.
  exfalso.
  match goal with
  | Hn : _ !! _ = None |- _ =>
      assert (draw_entry env (store w) = None) as Hnone by exact Hn
  end.
  destruct (draw_entry_in_range env (store w)) as [e He]; [|congruence].
  intros Hnil.
  match goal with
  | Hl : (0 <? Z.of_nat (length (entries (store w)))) = true |- _ =>
      rewrite Hnil in Hl; discriminate Hl
  end.
Qed.

(** X1. A draw that is rejected is rejected for one of eight reasons:
    ether was attached, one of the three [require]s of the guards, a
    refused permission grant, one of the two payout [require]s, or an
    arithmetic overflow.  The selection of the winning entry itself
    never fails: the index is always within the entries (no panic 0x32)
    and the modulus is never zero (no panic 0x12). *)
Theorem drawWinner_failure_modes depth env w w' f :
  transact depth env DrawWinner w = (w', Reverted f) ->
  (f = CallValueRejected \/
   f = RequireFailed "Only owner can call this function" \/
   f = RequireFailed "Lottery is not active" \/
   f = RequireFailed "No entries in lottery" \/
   f = PermissionRejected \/
   f = RequireFailed "Prize transfer to winner failed" \/
   f = RequireFailed "Fee transfer to owner failed" \/
   f = Panic 17) /\
  f <> Panic 50 /\ f <> Panic 18.
Proof.
  intros Ht. unfold transact, transact_with in Ht.
  rewrite entry_DrawWinner in Ht.
  assert (f = CallValueRejected \/
          f = RequireFailed "Only owner can call this function" \/
          f = RequireFailed "Lottery is not active" \/
          f = RequireFailed "No entries in lottery" \/
          f = PermissionRejected \/
          f = RequireFailed "Prize transfer to winner failed" \/
          f = RequireFailed "Fee transfer to owner failed" \/
          f = Panic 17) as Hcases.
  { destruct (msg_value env =? 0).
    - destruct (drawWinner (call_value depth) env w) as [a w1|f'] eqn:Hd;
        [done|].
      injection Ht as _ <-. right.
      destruct (drawWinner_fail_cases _ env w _ Hd)
        as [Hc|(to & v & w0 & Hc)]; [exact Hc|].
      destruct (call_value_total depth env to v w0) as (b & w1 & E).
      congruence.
    - injection Ht as _ <-. by left. }
  split; [exact Hcases|].
  split; intros ->; repeat (destruct Hcases as [Hc|Hcases]; [discriminate Hc|]);
    discriminate Hcases.
Qed.

Lemma transact_fail depth env c w f :
  entry (call_value depth) env c w = Fail f ->
  transact depth env c w = (w, Reverted f).
Proof. apply transact_with_fail. Qed.

Lemma draw_without_entries depth env w :
  msg_value env = 0 ->
  msg_sender env = owner (store w) ->
  isActive (store w) = true ->
  entries (store w) = [] ->
  transact depth env DrawWinner w =
    (w, Reverted (RequireFailed "No entries in lottery")).
Proof.
  intros Hv Ho Ha Hnil. apply transact_fail.
  rewrite entry_DrawWinner, Hv. change (0 =? 0) with true. cbv iota.
  unfold_sol. cbv beta iota zeta.
  rewrite (proj2 (Z.eqb_eq _ _) Ho). cbv beta iota. rewrite Ha.
  cbv beta iota. by rewrite Hnil.
Qed.

Lemma draw_while_paused depth env w :
  msg_value env = 0 ->
  msg_sender env = owner (store w) ->
  isActive (store w) = false ->
  transact depth env DrawWinner w =
    (w, Reverted (RequireFailed "Lottery is not active")).
Proof.
  intros Hv Ho Ha. apply transact_fail.
  rewrite entry_DrawWinner, Hv. change (0 =? 0) with true. cbv iota.
  unfold_sol. cbv beta iota zeta.
  rewrite (proj2 (Z.eqb_eq _ _) Ho). cbv beta iota. by rewrite Ha.
Qed.

(** X2. The guards answer in a fixed order and with fixed reasons.  An
    entry made while the lottery is inactive is turned down for that,
    whatever it pays; an active lottery turns down a payment below the
    fee.  A draw checks the caller first, then the status, then the
    entries; the other owner functions check the caller only. *)
Theorem revert_reasons depth env w :
  (forall h proof,
     isActive (store w) = false ->
     transact depth env (EnterLottery h proof) w =
       (w, Reverted (RequireFailed "Lottery is not active"))) /\
  (forall h proof,
     isActive (store w) = true ->
     msg_value env < entryFee (store w) ->
     transact depth env (EnterLottery h proof) w =
       (w, Reverted (RequireFailed "Insufficient entry fee"))) /\
  (forall c,
     c = DrawWinner \/ (exists b, c = SetLotteryActive b) \/
     (exists n, c = SetEntryFee n) \/ c = EmergencyWithdraw ->
     msg_value env = 0 ->
     msg_sender env <> owner (store w) ->
     transact depth env c w =
       (w, Reverted (RequireFailed "Only owner can call this function"))) /\
  (msg_value env = 0 ->
   msg_sender env = owner (store w) ->
   isActive (store w) = false ->
   transact depth env DrawWinner w =
     (w, Reverted (RequireFailed "Lottery is not active"))) /\
  (msg_value env = 0 ->
   msg_sender env = owner (store w) ->
   isActive (store w) = true ->
   entries (store w) = [] ->
   transact depth env DrawWinner w =
     (w, Reverted (RequireFailed "No entries in lottery"))).
Proof.
  split; [|split; [|split; [|split]]].
  - intros h proof Ha. apply transact_fail. rewrite entry_EnterLottery.
    unfold_sol. cbv beta iota zeta. cbn [credit store]. by rewrite Ha.
  - intros h proof Ha Hlt. apply transact_fail. rewrite entry_EnterLottery.
    unfold_sol. cbv beta iota zeta. cbn [credit store]. rewrite Ha.
    cbv beta iota. change (store (credit (msg_value env) w)) with (store w).
    by rewrite (proj2 (Z.leb_gt _ _) Hlt).
  - intros c Hc Hv Hno. apply transact_fail.
    assert ((msg_sender env =? owner (store w)) = false) as Hne by lia.
    destruct Hc as [ -> | [ [b ->] | [ [n ->] | -> ] ] ];
      rewrite entry_nonpayable by reflexivity; rewrite Hv;
      change (0 =? 0) with true; cbv iota; cbn [dispatch];
      unfold fmapM; unfold_sol; cbv beta iota zeta; by rewrite Hne.
  - apply draw_while_paused.
  - apply draw_without_entries.
Qed.

(** ** Entering and donating *)

(** X3. An entry is accepted exactly when the lottery is active, the
    payment covers the fee, the FHE library accepts the input proof, and
    neither the caller's entry count nor the prize pool would overflow.
    There is no other condition: no cap on entries, no check of who
    enters or how often. *)
Theorem enterLottery_succeeds_iff depth env h proof w :
  (exists w', transact depth env (EnterLottery h proof) w = (w', Success RUnit))
  <->
  isActive (store w) = true /\
  entryFee (store w) <= msg_value env /\
  is_Some (FHE_fromExternal env h proof) /\
  entriesOf (store w) (msg_sender env) + 1 <= MAX_UINT256 /\
  prizePool (store w) + msg_value env <= MAX_UINT256.
Proof.
  split.
  - intros [w' (Ha & Hfee & Hn & Hp & v & Hv & _)%transact_effect].
    rewrite Hv. eauto 6.
  - intros (Ha & Hfee & [v Hv] & Hn & Hp).
    exists (enter_final env v (credit (msg_value env) w)).
    unfold transact, transact_with. rewrite entry_EnterLottery.
    by rewrite (enterLottery_run env h proof v (credit (msg_value env) w)).
Qed.

(** X4. Anybody may send ether to the contract, with or without call
    data, whether the lottery is active or not: the amount is added to
    the prize pool and to the balance and nothing else changes - no
    entry, no event, no transfer.  The only donation turned down is one
    that would overflow the prize pool. *)
Theorem donation_effects depth env c w :
  c = Receive \/ (exists data, c = Fallback data) ->
  (prizePool (store w) + msg_value env <= MAX_UINT256 ->
   transact depth env c w =
     (mkWorld (set_prizePool (prizePool (store w) + msg_value env) (store w))
        (balance w + msg_value env) (events w) (transfers w),
      Success RUnit)) /\
  (MAX_UINT256 < prizePool (store w) + msg_value env ->
   transact depth env c w = (w, Reverted (Panic 17))).
Proof.
  intros Hc. split.
  - intros Hle.
    destruct Hc as [ -> | [data ->] ];
      unfold transact, transact_with, entry; cbn [payable dispatch];
      unfold fmapM, receive, fallback; unfold_sol; cbv beta iota zeta;
      cbn [credit store]; by rewrite (proj2 (Z.leb_le _ _) Hle).
  - intros Hgt.
    destruct Hc as [ -> | [data ->] ];
      unfold transact, transact_with, entry; cbn [payable dispatch];
      unfold fmapM, receive, fallback; unfold_sol; cbv beta iota zeta;
      cbn [credit store]; by rewrite (proj2 (Z.leb_gt _ _) Hgt).
Qed.

(** ** Winners *)

Lemma draw_final_wonOf depth env e w a :
  wonOf (store (draw_recorded env e w)) a = true ->
  wonOf (store (draw_final depth env e w)) a = true.
Proof.
  intros Ha. destruct (draw_worlds_evolve depth env e w) as [H1 H2].
  destruct (evolves_trans _ _ _ H1 H2) as (_ & _ & _ & _ & _ & Hf & _).
  by apply Hf.
Qed.

(** X5. The address a successful draw returns is the participant of one
    of the entries of the round.  The draw sets that address's has-won
    flag, which hasParticipantWon then reports, and clears nobody's;
    when no recipient calls back, the flag of every other address is
    what it was. *)
Theorem drawWinner_marks_winner depth env w w' a :
  transact depth env DrawWinner w = (w', Success (RAddress a)) ->
  (exists e, e ∈ entries (store w) /\ LotteryEntry.participant e = a) /\
  1 <= round_entries_of (store w) a /\
  hasParticipantWon a w' = Ok true w' /\
  (forall b, wonOf (store w) b = true -> wonOf (store w') b = true) /\
  (quiet -> forall b, b <> a -> wonOf (store w') b = wonOf (store w) b).
Proof.
  intros Ht.
  pose proof (transact_evolves _ _ _ _ _ _ Ht) as (_ & _ & _ & _ & _ & Hf & _).
  apply draw_success in Ht as (_ & e & Hadm & Hw & Ho & _ & [= ->] & ->).
  apply draw_admitted_entry, draw_entry_member in Hadm.
  split; [by exists e|]. split.
  { unfold round_entries_of.
    assert (e ∈ filter (fun e0 => LotteryEntry.participant e0 =
                                   LotteryEntry.participant e)
                  (entries (store w))) as Hin
      by (by apply list_elem_of_filter).
    destruct (filter _ _); [by apply elem_of_nil in Hin|cbn [length]; lia]. }
  split.
  { unfold hasParticipantWon, sload. f_equal.
    apply draw_final_wonOf. rewrite wonOf_recorded. by rewrite decide_True. }
  split; [exact Hf|].
  intros Hq b Hb.
  destruct (draw_paid_owner_quiet depth env e w Hq Hw Ho) as [_ E].
  unfold draw_final. rewrite E.
  change (wonOf (store (draw_recorded env e w)) b = wonOf (store w) b).
  rewrite wonOf_recorded. by rewrite decide_False.
Qed.

(** X6. The has-won flag is never cleared: an address that has won
    once is reported as a winner after any further sequence of
    transactions, draws and round resets included. *)
Theorem hasWon_persistent depth txs w a :
  wonOf (store w) a = true -> wonOf (store (run depth txs w)) a = true.
Proof.
  destruct (run_evolves depth txs w) as (_ & _ & _ & _ & _ & Hf & _).
  apply Hf.
Qed.

(** X7. From deployment on, the round number is the number of recorded
    winners plus 1: rounds advance with successful draws and with
    nothing else. *)
Theorem round_counts_draws depth env0 txs :
  roundNumber (store (run depth txs (constructor env0))) =
    Z.of_nat (length (winners (store (run depth txs (constructor env0))))) + 1.
Proof.
  destruct (run_evolves depth txs (constructor env0))
    as (_ & _ & _ & _ & _ & _ & Hr).
  cbn [constructor store roundNumber winners length] in Hr. lia.
Qed.

Lemma getLastWinner_last w l r :
  winners (store w) = l ++ [r] -> getLastWinner w = Ok (Winner.winner r) w.
Proof.
  intros Hw. unfold_sol. cbv beta iota zeta. rewrite Hw.
  rewrite length_app. cbn [length].
  assert ((0 <? Z.of_nat (length l + 1)) = true) as ->
    by (apply Z.ltb_lt; lia).
  cbv beta iota.
  assert ((1 <=? Z.of_nat (length l + 1)) = true) as ->
    by (apply Z.leb_le; lia).
  cbv beta iota.
  replace (Z.to_nat (Z.of_nat (length l + 1) - 1)) with (length l) by lia.
  by rewrite list_lookup_middle.
Qed.

(** X8. getLastWinner is rejected with "No winners yet" until the first
    draw; afterwards it answers the winner of the newest record and
    changes nothing.  After a successful draw it answers: the address
    the draw returned if the draw's record is the only one added during
    the call, as it is when no recipient calls back; otherwise the
    winner of the last draw made from inside the payouts. *)
Theorem getLastWinner_spec :
  (forall w,
     winners (store w) = [] ->
     getLastWinner w = Fail (RequireFailed "No winners yet")) /\
  (forall w l r,
     winners (store w) = l ++ [r] ->
     getLastWinner w = Ok (Winner.winner r) w) /\
  (forall depth env w w' a,
     transact depth env DrawWinner w = (w', Success (RAddress a)) ->
     exists b,
       getLastWinner w' = Ok b w' /\
       (length (winners (store w')) = S (length (winners (store w))) ->
        b = a) /\
       (quiet -> b = a)).
Proof.
  split; [|split].
  - intros w Hw. unfold_sol. cbv beta iota zeta. by rewrite Hw.
  - apply getLastWinner_last.
  - intros depth env w w' a
      (_ & e & _ & Hw & Ho & _ & [= ->] & ->)%draw_success.
    destruct (draw_final_winners depth env e w) as [more Hm].
    assert (quiet -> more = []) as Hquiet.
    { intros Hq.
      destruct (draw_paid_owner_quiet depth env e w Hq Hw Ho) as [_ E].
      unfold draw_final in Hm. rewrite E in Hm.
      cbn [draw_closed debit draw_recorded store winners set_roundNumber
           set_prizePool set_entries set_winners] in Hm.
      apply app_inv_head in Hm.
      rewrite <- (app_nil_r [_]) in Hm at 1. by apply app_inv_head in Hm. }
    destruct more as [|m more _] using rev_ind.
    + rewrite app_nil_r in Hm.
      exists (LotteryEntry.participant e).
      split; [exact (getLastWinner_last _ _ _ Hm)|]. by split.
    + exists (Winner.winner m). split.
      * apply (getLastWinner_last _
                 (winners (store w) ++
                    [Winner.mk (LotteryEntry.participant e)
                       (draw_prize (store w)) 0 (block_timestamp env)] ++ more)).
        rewrite Hm. by rewrite <- !app_assoc.
      * split.
        -- intros Hlen. rewrite Hm, !length_app in Hlen.
           cbn [length] in Hlen. lia.
        -- intros Hq. apply Hquiet in Hq. by destruct more.
Qed.

(** ** Who can do what *)

(** X9. The owner is fixed at deployment: no sequence of transactions,
    and nothing a recipient does while it is paid, changes it. *)
Theorem owner_never_changes depth txs w :
  owner (store (run depth txs w)) = owner (store w).
Proof. by destruct (run_evolves depth txs w) as (Ho & _). Qed.

(** X10. A transaction sent by anyone but the owner cannot take ether
    out of the contract and cannot touch the fee, the status, the round
    number, the winners or the has-won flags.  All it can do is add an
    entry or a donation: the entries of before remain, in order, and the
    balance does not shrink. *)
Theorem non_owner_limits depth env c w :
  msg_sender env <> owner (store w) ->
  let w' := step depth w (env, c) in
  transfers w' = transfers w /\
  entryFee (store w') = entryFee (store w) /\
  isActive (store w') = isActive (store w) /\
  roundNumber (store w') = roundNumber (store w) /\
  winners (store w') = winners (store w) /\
  hasWon (store w') = hasWon (store w) /\
  entries (store w) `prefix_of` entries (store w') /\
  (0 <= msg_value env -> balance w <= balance w').
Proof.
  intros Hno. cbv zeta. unfold step. cbn [fst snd].
  destruct (transact depth env c w) as [w' [r|f]] eqn:Ht; cbn [fst].
  2:{ apply transact_reverted in Ht as ->. repeat split; try done; intros; lia. }
  pose proof (transact_effect _ _ _ _ _ _ Ht) as He.
  destruct c; cbn [effect] in He;
    try (rewrite He; repeat split; try done; intros; lia);
    try (by destruct He as [Hown _]).
  - destruct He as (_ & _ & _ & _ & v & _ & ->).
    repeat split; try done.
    + by apply prefix_app_r.
    + cbn. lia.
  - destruct He as (e & _ & _ & Hadm & _).
    by apply draw_admitted_owner in Hadm as [Hown _].
  - destruct He as [_ ->]. repeat split; try done. cbn. lia.
  - destruct He as [_ ->]. repeat split; try done. cbn. lia.
Qed.

(** X11. A round is drawn once: after a successful draw the entries are
    gone, so a further draw by the owner is rejected - with "No entries
    in lottery" while the lottery is active, as it is when no recipient
    calls back, and with "Lottery is not active" if the owner has
    paused it while being paid. *)
Theorem second_draw_rejected depth env w w' r depth' env' :
  transact depth env DrawWinner w = (w', Success r) ->
  msg_sender env' = owner (store w) ->
  msg_value env' = 0 ->
  transact depth' env' DrawWinner w' =
    (w', Reverted (RequireFailed
                     (if isActive (store w')
                      then "No entries in lottery"
                      else "Lottery is not active"))) /\
  (quiet -> isActive (store w') = true).
Proof.
  intros Ht Ho Hv.
  pose proof (transact_evolves _ _ _ _ _ _ Ht) as (Eo & _).
  apply draw_success in Ht as (_ & e & Hadm & Hw & Hf & _ & _ & ->).
  rewrite <- Eo in Ho. split.
  - destruct (isActive (store (draw_final depth env e w))) eqn:Ha.
    + by apply draw_without_entries.
    + by apply draw_while_paused.
  - intros Hq. destruct (draw_paid_owner_quiet depth env e w Hq Hw Hf) as [_ E].
    unfold draw_final. rewrite E.
    by apply draw_admitted_owner in Hadm as [_ Ha].
Qed.

(** ** Ether and the prize pool *)

Lemma draw_success_funded depth env w w' r :
  quiet ->
  transact depth env DrawWinner w = (w', Success r) ->
  prizePool (store w) <= balance w /\
  balance w' = balance w - prizePool (store w) /\
  prizePool (store w') = 0.
Proof.
  intros Hq (_ & e & _ & Hw & Ho & _ & _ & ->)%draw_success.
  destruct (draw_paid_owner_quiet depth env e w Hq Hw Ho) as [Hb E].
  unfold draw_final. rewrite E.
  unfold draw_ownerFee in *. cbn. split; [lia|]. split; [lia|done].
Qed.

Lemma step_funds depth w tx :
  quiet ->
  wf_tx tx ->
  0 <= balance w <= prizePool (store w) ->
  0 <= balance (step depth w tx) <= prizePool (store (step depth w tx)).
Proof.
  destruct tx as [env c]. intros Hq [[Hv _] _] Hw. cbn [fst] in Hv.
  unfold step. cbn [fst snd].
  destruct (transact depth env c w) as [w' [r|f]] eqn:Ht; cbn [fst].
  2:{ by apply transact_reverted in Ht as ->. }
  destruct c;
    try (apply transact_effect in Ht; cbn [effect] in Ht; by rewrite Ht).
  - apply transact_effect in Ht as (_ & _ & _ & _ & v & _ & ->). cbn. lia.
  - apply (draw_success_funded _ _ _ _ _ Hq) in Ht as (? & -> & ->). lia.
  - apply transact_effect in Ht as [_ ->]. done.
  - apply transact_effect in Ht as [_ ->]. done.
  - apply transact_effect in Ht as [_ Hc].
    apply (call_value_quiet _ _ _ _ _ _ Hq) in Hc as [_ ->]. cbn. lia.
  - apply transact_effect in Ht as [_ ->]. cbn. lia.
  - apply transact_effect in Ht as [_ ->]. cbn. lia.
Qed.

Lemma step_funds_exact depth w tx :
  quiet ->
  is_sweep tx = false ->
  balance w = prizePool (store w) ->
  balance (step depth w tx) = prizePool (store (step depth w tx)).
Proof.
  destruct tx as [env c]. intros Hq Hs Hw.
  unfold step. cbn [fst snd].
  destruct (transact depth env c w) as [w' [r|f]] eqn:Ht; cbn [fst].
  2:{ by apply transact_reverted in Ht as ->. }
  destruct c; try discriminate Hs;
    try (apply transact_effect in Ht; cbn [effect] in Ht; by rewrite Ht).
  - apply transact_effect in Ht as (_ & _ & _ & _ & v & _ & ->). cbn. lia.
  - apply (draw_success_funded _ _ _ _ _ Hq) in Ht as (? & -> & ->). lia.
  - apply transact_effect in Ht as [_ ->]. done.
  - apply transact_effect in Ht as [_ ->]. done.
  - apply transact_effect in Ht as [_ ->]. cbn. lia.
  - apply transact_effect in Ht as [_ ->]. cbn. lia.
Qed.

(** X12. When no recipient calls back: counting from deployment, the
    contract never holds more ether than its prize pool says (ether
    reaches it only through enterLottery, receive and fallback, which
    all add to the pool); and as long as no emergency withdrawal has
    been called, it holds exactly the prize pool, so that every draw
    pays out all of it.  (A winner that sends ether back through
    receive while it is paid leaves the contract with more than the
    pool says, the reset coming after the payouts.) *)
Theorem balance_tracks_prizePool depth env0 txs :
  quiet ->
  Forall wf_tx txs ->
  let w := run depth txs (constructor env0) in
  0 <= balance w <= prizePool (store w) /\
  (forallb (fun tx => negb (is_sweep tx)) txs = true ->
   balance w = prizePool (store w)).
Proof.
  intros Hq Hwf. cbv zeta.
  assert (forall w,
            0 <= balance w <= prizePool (store w) ->
            0 <= balance (run depth txs w)
              <= prizePool (store (run depth txs w))) as H1.
  { induction Hwf as [|tx txs Htx _ IH]; intros w Hw; cbn [run fold_left].
    - done.
    - apply (IH (step depth w tx)). by apply step_funds. }
  assert (forall w,
            forallb (fun tx => negb (is_sweep tx)) txs = true ->
            balance w = prizePool (store w) ->
            balance (run depth txs w) = prizePool (store (run depth txs w)))
    as H2.
  { clear Hwf H1.
    induction txs as [|tx txs IH]; intros w Hs Hw; cbn [run fold_left].
    - done.
    - cbn [forallb] in Hs. apply andb_true_iff in Hs as [Hs1 Hs2].
      apply (IH (step depth w tx) Hs2). apply step_funds_exact; [done| |done].
      by destruct (is_sweep tx). }
  split.
  - apply H1. cbn. lia.
  - intros Hs. by apply H2.
Qed.

Lemma underfunded_draw_rejected depth env w :
  quiet ->
  balance w < prizePool (store w) ->
  exists f, transact depth env DrawWinner w = (w, Reverted f).
Proof.
  intros Hq Hu.
  destruct (transact depth env DrawWinner w) as [w' [r|f]] eqn:Ht.
  - apply (draw_success_funded _ _ _ _ _ Hq) in Ht as (? & _). lia.
  - apply transact_reverted in Ht as Hw. subst w'. by exists f.
Qed.

Lemma step_underfunded depth w tx :
  quiet -> wf_tx tx -> underfunded w -> underfunded (step depth w tx).
Proof.
  destruct tx as [env c]. intros Hq [[Hv _] _] Hw. cbn [fst] in Hv.
  unfold step, underfunded in *. cbn [fst snd].
  destruct (transact depth env c w) as [w' [r|f]] eqn:Ht; cbn [fst].
  2:{ by apply transact_reverted in Ht as ->. }
  destruct c;
    try (apply transact_effect in Ht; cbn [effect] in Ht; by rewrite Ht).
  - apply transact_effect in Ht as (_ & _ & _ & _ & v & _ & ->). cbn. lia.
  - apply (draw_success_funded _ _ _ _ _ Hq) in Ht as (? & _). lia.
  - apply transact_effect in Ht as [_ ->]. done.
  - apply transact_effect in Ht as [_ ->]. done.
  - apply transact_effect in Ht as [_ Hc].
    apply (call_value_quiet _ _ _ _ _ _ Hq) in Hc as [_ ->]. cbn. lia.
  - apply transact_effect in Ht as [_ ->]. cbn. lia.
  - apply transact_effect in Ht as [_ ->]. cbn. lia.
Qed.

(** X13. When no recipient calls back, an emergency withdrawal made
    while the prize pool is positive leaves the lottery unable to draw,
    for good: the pool keeps promising more than the contract holds,
    later entries and donations raise both by the same amount, and so
    every later drawWinner is rejected, whoever calls it and whatever
    happens in between.  (Ether reaches the contract only through its
    payable functions; a recipient that calls back can return the
    missing ether through receive while it is paid.) *)
Theorem sweep_blocks_draws depth env w w' r txs env' :
  quiet ->
  transact depth env EmergencyWithdraw w = (w', Success r) ->
  0 < prizePool (store w) ->
  Forall wf_tx txs ->
  underfunded (run depth txs w') /\
  exists f,
    transact depth env' DrawWinner (run depth txs w') =
      (run depth txs w', Reverted f).
Proof.
  intros Hq [_ Hc]%transact_effect Hpos Hwf.
  apply (call_value_quiet _ _ _ _ _ _ Hq) in Hc as [_ ->].
  assert (forall w0, underfunded w0 -> underfunded (run depth txs w0)) as Hinv.
  { induction Hwf as [|tx txs Htx _ IH]; intros w0 Hw0; cbn [run fold_left].
    - done.
    - apply (IH (step depth w0 tx)). by apply step_underfunded. }
  assert (underfunded
            (run depth txs (debit (owner (store w)) (balance w) w))) as Hu.
  { apply Hinv. unfold underfunded. cbn. lia. }
  split; [exact Hu|].
  apply underfunded_draw_rejected; [done|]. apply Hu.
Qed.

(** ** Storage stays well-typed *)

Lemma keeps_range_run depth txs w :
  wf_hooks ->
  Forall wf_tx txs ->
  keeps_range w (run depth txs w).
Proof.
  intros Hh Hwf.
  apply (respect_run keeps_range (fun env c => wf_tx (env, c))); try done.
  - by intros ? ?.
  - intros a b c Hab Hbc Ha. by apply Hbc, Hab.
  - intros env h proof v w0 [[Hv0 Hv1] _] _ _ Hn Hp (Hfee & Hpool & Hround & Hc).
    unfold storage_in_range, is_uint256 in *. cbn [fst] in *.
    split; [done|]. split; [cbn; lia|]. split; [done|].
    intros a. rewrite entriesOf_enter_final. cbn [credit store].
    pose proof (Hc a). pose proof (Hc (msg_sender env)).
    destruct (decide (a = msg_sender env)); lia.
  - intros env c w0 [[Hv0 Hv1] _] Hp (Hfee & Hpool & Hround & Hc).
    unfold storage_in_range, is_uint256 in *. cbn [fst] in *.
    split; [done|]. split; [cbn; lia|]. split; [done|]. exact Hc.
  - intros b w0 H. exact H.
  - intros env n w0 [_ Hn] (Hfee & Hpool & Hround & Hc). cbn [snd] in Hn.
    split; [exact Hn|]. split; [exact Hpool|]. split; [exact Hround|exact Hc].
  - intros to v w0 _ H. exact H.
  - intros env e w0 w1 w2 _ Hr H1 H2 Hw0.
    assert (storage_in_range (store (draw_recorded env e w0))) as Hrec
      by exact Hw0.
    destruct (H2 (H1 Hrec)) as (Hfee & Hpool & Hround & Hc).
    unfold storage_in_range, is_uint256, MAX_UINT256 in *.
    cbn [draw_closed store entryFee prizePool roundNumber set_roundNumber
         set_prizePool set_entries].
    split; [done|]. split; [lia|]. split; [lia|]. exact Hc.
Qed.

(** X14. From deployment on, whatever well-typed transactions are sent
    and whatever well-typed calls recipients make while they are paid,
    the entry fee, the prize pool, the round number and every
    participant's entry count are values of uint256, the round number
    at least 1: the checked additions reject what would overflow
    instead of wrapping around. *)
Theorem storage_stays_in_range depth env0 txs :
  wf_hooks ->
  Forall wf_tx txs ->
  storage_in_range (store (run depth txs (constructor env0))).
Proof.
  intros Hh Hwf.
  apply (keeps_range_run depth txs (constructor env0) Hh Hwf).
  unfold storage_in_range, is_uint256, MAX_UINT256, entriesOf.
  cbn [constructor store entryFee prizePool roundNumber participantEntries].
  repeat split; try lia.
  all: rewrite lookup_empty; cbn; lia.
Qed.

(** ** Entries of the round and lifetime counts *)

Lemma round_entries_of_nonneg s a : 0 <= round_entries_of s a.
Proof. unfold round_entries_of. lia. Qed.

Lemma keeps_ledgers_run depth txs w : keeps_ledgers w (run depth txs w).
Proof.
  apply (respect_run keeps_ledgers (fun _ _ => True)); try done.
  - by intros ? ?.
  - intros a b c Hab Hbc Ha. by apply Hbc, Hab.
  - intros env h proof v w0 _ _ _ _ _ Hw a.
    rewrite entriesOf_enter_final.
    unfold round_entries_of, enter_final.
    cbn [store entries credit set_prizePool set_participantEntries set_entries].
    rewrite filter_app, length_app.
    specialize (Hw a). unfold round_entries_of in Hw.
    rewrite filter_cons, filter_nil. cbn [LotteryEntry.participant].
    destruct (decide (a = msg_sender env)) as [->|Hne].
    + rewrite decide_True by done. cbn [length]. lia.
    + rewrite decide_False by done. cbn [length]. lia.
  - intros env c w0 _ _ Hw a. exact (Hw a).
  - intros b w0 Hw a. exact (Hw a).
  - intros env n w0 _ Hw a. exact (Hw a).
  - intros to v w0 _ Hw a. exact (Hw a).
  - intros env e w0 w1 w2 _ _ H1 H2 Hw0 a.
    assert (ledgers_agree (draw_recorded env e w0)) as Hrec
      by (intros b; exact (Hw0 b)).
    pose proof (H2 (H1 Hrec) a) as Ha.
    pose proof (round_entries_of_nonneg (store w2) a).
    change (round_entries_of (store (draw_closed env e w0 w2)) a) with 0.
    change (entriesOf (store (draw_closed env e w0 w2)) a)
      with (entriesOf (store w2) a).
    lia.
  - intros ? ? ? ?. apply hook_all_True.
  - by apply Forall_true.
Qed.

(** X15. The two ledgers of entries agree: from deployment on, the
    number of entries an address has in the current round never exceeds
    the lifetime count getParticipantEntries reports for it. *)
Theorem round_entries_within_lifetime depth env0 txs a :
  round_entries_of (store (run depth txs (constructor env0))) a <=
    entriesOf (store (run depth txs (constructor env0))) a.
Proof.
  apply (keeps_ledgers_run depth txs (constructor env0)).
  intros b. unfold round_entries_of, entriesOf.
  cbn [constructor store entries participantEntries].
  rewrite lookup_empty. cbn. lia.
Qed.

(** ** How the pool is split *)

(** X16. The split of a successful draw rounds in the owner's favour:
    the winner receives at most 80% of the pool, the owner at least
    20%, and each share is less than one wei away from the exact
    percentage.  When the pool is a multiple of 5 wei the split is
    exact; a pool of 1 wei goes to the owner entirely.  The two
    payouts are recorded in this order; around them stand only the
    transfers of calls the recipients made while they were paid, none
    when no recipient calls back. *)
Theorem drawWinner_rounding depth env w w' r :
  transact depth env DrawWinner w = (w', Success r) ->
  exists a p f inner1 inner2,
    r = RAddress a /\
    transfers w' =
      transfers w ++ [(a, p)] ++ inner1 ++ [(owner (store w), f)] ++ inner2 /\
    (quiet ->
     transfers w' = transfers w ++ [(a, p); (owner (store w), f)]) /\
    let pool := prizePool (store w) in
    (100 * p <= 80 * pool < 100 * p + 100) /\
    (20 * pool <= 100 * f < 20 * pool + 100) /\
    (pool mod 5 = 0 -> 5 * p = 4 * pool /\ 5 * f = pool) /\
    (pool = 1 -> p = 0 /\ f = 1).
Proof.
  intros (_ & e & _ & Hw & Ho & _ & -> & ->)%draw_success.
  destruct (draw_payouts depth env e w Hw Ho) as (inner1 & inner2 & Ht & Hq).
  exists (LotteryEntry.participant e), (draw_prize (store w)),
    (draw_ownerFee (store w)), inner1, inner2.
  split; [done|]. split; [exact Ht|]. split.
  { intros Q. destruct (Hq Q) as (-> & -> & _).
    change (transfers (draw_final depth env e w))
      with (transfers (draw_paid_owner depth env e w)).
    rewrite Ht. reflexivity. }
  cbv zeta. unfold draw_ownerFee, draw_prize.
  pose proof (Z.div_mod (prizePool (store w) * 80) 100 ltac:(lia)) as Hdm.
  pose proof (Z.mod_pos_bound (prizePool (store w) * 80) 100 ltac:(lia)) as Hb.
  split; [lia|]. split; [lia|]. split.
  - intros H5.
    assert (exists k, prizePool (store w) = 5 * k) as [k Hk].
    { exists (prizePool (store w) / 5).
      pose proof (Z.div_mod (prizePool (store w)) 5 ltac:(lia)). lia. }
    rewrite Hk.
    replace (5 * k * 80) with (4 * k * 100) by lia.
    rewrite Z.div_mul by lia. lia.
  - intros ->. change (1 * 80 / 100) with 0. lia.
Qed.

(** ** The event log *)

Lemma effect_events depth env c w w' :
  calls_out c = false ->
  effect (call_value depth) env c w w' ->
  events w' = events w ++ emitted env c w.
Proof.
  destruct c; cbn [effect emitted calls_out]; intros Hc He;
    try discriminate Hc;
    try (rewrite He; cbn; by rewrite app_nil_r);
    try (rewrite (proj2 He); cbn; by rewrite ?app_nil_r).
  destruct He as (_ & _ & _ & _ & v & _ & ->). reflexivity.
Qed.

Lemma draw_events depth env e w :
  winner_transfer_ok depth env e w = true ->
  owner_transfer_ok depth env e w = true ->
  exists inner,
    events (draw_paid_owner depth env e w) = events w ++ inner /\
    (quiet ->
     inner = [] /\
     roundNumber (store (draw_paid_owner depth env e w)) =
       roundNumber (store w)).
Proof.
  intros Hw Ho.
  destruct (draw_worlds_evolve depth env e w)
    as [(_ & _ & _ & [i1 E1] & _) (_ & _ & _ & [i2 E2] & _)].
  assert (events (draw_paid_owner depth env e w) = events w ++ (i1 ++ i2))
    as Ei.
  { rewrite E2, E1. cbn [draw_recorded events]. by rewrite app_assoc. }
  exists (i1 ++ i2). split; [exact Ei|].
  intros Hq.
  destruct (draw_paid_owner_quiet depth env e w Hq Hw Ho) as [_ E].
  rewrite E in Ei |- *.
  cbn [debit events draw_recorded store roundNumber set_winners set_hasWon]
    in *.
  split; [|done].
  rewrite <- (app_nil_r (events w)) in Ei at 1.
  by apply app_inv_head in Ei.
Qed.

(** X17. What each call logs.  A committed enterLottery logs one
    LotteryEntered with the caller, the block timestamp and the current
    round; setLotteryActive logs LotteryStatusChanged; setEntryFee, the
    views, receive and fallback log nothing, and no rejected call logs
    anything.  A committed draw ends the log with WinnerDrawn, for the
    winner and 80% of the pool the draw started with, and LotteryReset:
    the first carries the round number that the reset then advances by
    one, the second the number of the new round.  Between the log as it
    was and these two events stand only the events of calls that the
    recipients made while they were paid; when no recipient calls back
    there are none, the round in WinnerDrawn is the round being drawn,
    and an emergency withdrawal logs nothing.  Over any sequence of
    transactions the log only grows at its end. *)
Theorem events_of_transactions depth :
  (forall env c w w' rc,
     calls_out c = false ->
     transact depth env c w = (w', rc) ->
     events w' =
       events w ++
         match rc with
         | Success _ => emitted env c w
         | Reverted _ => []
         end) /\
  (forall env c w w' f,
     transact depth env c w = (w', Reverted f) -> events w' = events w) /\
  (forall env w w' r,
     transact depth env DrawWinner w = (w', Success r) ->
     exists a inner,
       r = RAddress a /\
       events w' =
         events w ++ inner ++
           [WinnerDrawn a (prizePool (store w) * 80 / 100) 0
              (roundNumber (store w') - 1);
            LotteryReset (roundNumber (store w'))] /\
       (quiet ->
        inner = [] /\ roundNumber (store w') - 1 = roundNumber (store w))) /\
  (forall env w w' r,
     transact depth env EmergencyWithdraw w = (w', Success r) ->
     events w `prefix_of` events w' /\ (quiet -> events w' = events w)) /\
  (forall txs w, events w `prefix_of` events (run depth txs w)).
Proof.
  split; [|split; [|split; [|split]]].
  - intros env c w w' [r|f] Hc Ht.
    + apply transact_effect in Ht. by apply effect_events in Ht.
    + apply transact_reverted in Ht as ->. by rewrite app_nil_r.
  - intros env c w w' f Ht. by apply transact_reverted in Ht as ->.
  - intros env w w' r (_ & e & _ & Hw & Ho & _ & -> & ->)%draw_success.
    destruct (draw_events depth env e w Hw Ho) as (inner & Ei & Hq).
    exists (LotteryEntry.participant e), inner. split; [done|]. split.
    + unfold draw_final, draw_closed.
      cbn [events store roundNumber set_roundNumber].
      rewrite Ei. rewrite <- !app_assoc.
      replace (roundNumber (store (draw_paid_owner depth env e w)) + 1 - 1)
        with (roundNumber (store (draw_paid_owner depth env e w))) by lia.
      reflexivity.
    + intros Q. destruct (Hq Q) as [-> Er]. split; [done|].
      unfold draw_final, draw_closed.
      cbn [store roundNumber set_roundNumber]. lia.
  - intros env w w' r [_ Hc]%transact_effect. split.
    + by destruct (call_value_evolves _ _ _ _ _ _ _ Hc) as (_ & _ & _ & ? & _).
    + intros Q. by apply (call_value_quiet _ _ _ _ _ _ Q) in Hc as [_ ->].
  - intros txs w. by destruct (run_evolves depth txs w) as (_ & _ & _ & ? & _).
Qed.

(** ** The bytes behind the draw *)

Lemma be_bytes_length n v : length (be_bytes n v) = n.
Proof.
  revert v. induction n as [|n IH]; intros v; cbn [be_bytes].
  - done.
  - rewrite length_app, IH. cbn [length]. lia.
Qed.

Lemma Z_of_byte_of_Z v : Z_of_byte (byte_of_Z v) = v mod 256.
Proof.
  unfold Z_of_byte, byte_of_Z.
  pose proof (Z.mod_pos_bound v 256 ltac:(lia)) as Hb.
  destruct (Byte.of_N (Z.to_N (v mod 256))) as [b|] eqn:Hof.
  - apply Byte.to_of_N in Hof. rewrite Hof. lia.
  - apply Byte.of_N_None_iff in Hof. lia.
Qed.

Lemma be_decode_app bs b :
  be_decode (bs ++ [b]) = be_decode bs * 256 + Z_of_byte b.
Proof. unfold be_decode. by rewrite fold_left_app. Qed.

Lemma be_decode_be_bytes n v :
  be_decode (be_bytes n v) = v mod 256 ^ Z.of_nat n.
Proof.
  revert v. induction n as [|n IH]; intros v; cbn [be_bytes].
  - cbn. by rewrite Z.mod_1_r.
  - rewrite be_decode_app, IH, Z_of_byte_of_Z.
    replace (Z.of_nat (S n)) with (1 + Z.of_nat n) by lia.
    rewrite Z.pow_add_r by lia. change (256 ^ 1) with 256.
    rewrite (Z.rem_mul_r v 256 (256 ^ Z.of_nat n)) by lia. lia.
Qed.

Lemma be_bytes_inj n v v' :
  0 <= v < 256 ^ Z.of_nat n ->
  0 <= v' < 256 ^ Z.of_nat n ->
  be_bytes n v = be_bytes n v' -> v = v'.
Proof.
  intros Hv Hv' Heq.
  apply (f_equal be_decode) in Heq.
  rewrite !be_decode_be_bytes in Heq.
  by rewrite !Z.mod_small in Heq.
Qed.

(** X18. The bytes hashed by a draw are the packed encoding of the
    block timestamp, the block number, the previous block hash, the
    entry count and the caller: always 148 bytes, from which each of
    the five values can be read back, so that two draws hash the same
    bytes only when all five agree.  Reading a big-endian field back
    gives the encoded value modulo the width of the field. *)
Theorem draw_preimage_faithful :
  (forall env s,
     draw_index env s =
       (keccak256
          (draw_preimage (block_timestamp env) (block_number env)
             (blockhash env (block_number env - 1))
             (Z.of_nat (length (entries s))) (msg_sender env))
        mod 2 ^ 256) mod Z.of_nat (length (entries s))) /\
  (forall ts bn bh len sender,
     length (draw_preimage ts bn bh len sender) = 148%nat) /\
  (forall n v, be_decode (be_bytes n v) = v mod 256 ^ Z.of_nat n) /\
  (forall ts bn bh len sender ts' bn' bh' len' sender',
     is_uint256 ts -> is_uint256 bn -> is_uint256 bh -> is_uint256 len ->
     is_address sender ->
     is_uint256 ts' -> is_uint256 bn' -> is_uint256 bh' -> is_uint256 len' ->
     is_address sender' ->
     draw_preimage ts bn bh len sender = draw_preimage ts' bn' bh' len' sender' ->
     ts = ts' /\ bn = bn' /\ bh = bh' /\ len = len' /\ sender = sender').
Proof.
  split; [reflexivity|]. split; [|split].
  - intros. unfold draw_preimage, encode_uint256, encode_bytes32, encode_address.
    rewrite !length_app, !be_bytes_length. reflexivity.
  - apply be_decode_be_bytes.
  - unfold is_uint256, is_address, MAX_UINT256, draw_preimage, encode_uint256,
      encode_bytes32, encode_address.
    intros ts bn bh len sender ts' bn' bh' len' sender'
      Hts Hbn Hbh Hlen Hs Hts' Hbn' Hbh' Hlen' Hs' Heq.
    apply app_inj_1 in Heq as [H1 Heq]; [|by rewrite !be_bytes_length].
    apply app_inj_1 in Heq as [H2 Heq]; [|by rewrite !be_bytes_length].
    apply app_inj_1 in Heq as [H3 Heq]; [|by rewrite !be_bytes_length].
    apply app_inj_1 in Heq as [H4 H5]; [|by rewrite !be_bytes_length].
    change (256 ^ Z.of_nat 32) with (2 ^ 256) in *.
    assert (256 ^ Z.of_nat 32 = 2 ^ 256) as E32 by reflexivity.
    assert (256 ^ Z.of_nat 20 = 2 ^ 160) as E20 by reflexivity.
    repeat split.
    + apply (be_bytes_inj 32); [rewrite E32; lia..|done].
    + apply (be_bytes_inj 32); [rewrite E32; lia..|done].
    + apply (be_bytes_inj 32); [rewrite E32; lia..|done].
    + apply (be_bytes_inj 32); [rewrite E32; lia..|done].
    + apply (be_bytes_inj 20); [rewrite E20; lia..|done].
Qed.

(** ** The owner functions, whatever the state *)

(** X19. The owner's setters are not gated by the status of the lottery
    and validate nothing: called by the owner without ether,
    setLotteryActive and setEntryFee always succeed, for any status and
    any fee (zero included).  emergencyWithdraw, under the same
    conditions, sends the whole balance to the owner and commits what
    that call leaves behind when the owner's account accepts the
    transfer, and is otherwise rejected with "Withdrawal failed"; the
    account's acceptance alone decides, and when no recipient calls
    back the withdrawal is the transfer and nothing else. *)
Theorem owner_functions_succeed depth env w :
  msg_sender env = owner (store w) ->
  msg_value env = 0 ->
  (forall active,
     transact depth env (SetLotteryActive active) w =
       (status_changed active w, Success RUnit)) /\
  (forall newFee,
     transact depth env (SetEntryFee newFee) w =
       (fee_changed newFee w, Success RUnit)) /\
  transact depth env EmergencyWithdraw w =
    match call_value depth env (owner (store w)) (balance w) w with
    | Ok true w' => (w', Success RUnit)
    | _ => (w, Reverted (RequireFailed "Withdrawal failed"))
    end /\
  (forall d,
     depth = S d ->
     (exists w', transact depth env EmergencyWithdraw w = (w', Success RUnit))
     <-> is_Some (run_hook (call_value d) env
                    (recipient env w (owner (store w)) (balance w))
                    (debit (owner (store w)) (balance w) w))) /\
  (quiet ->
   forall d,
     depth = S d ->
     transact depth env EmergencyWithdraw w =
       match recipient env w (owner (store w)) (balance w) with
       | Accept => (debit (owner (store w)) (balance w) w, Success RUnit)
       | _ => (w, Reverted (RequireFailed "Withdrawal failed"))
       end).
Proof.
  intros Ho Hv.
  assert ((msg_sender env =? owner (store w)) = true) as Hoe by lia.
  assert (transact depth env EmergencyWithdraw w =
            match call_value depth env (owner (store w)) (balance w) w with
            | Ok true w' => (w', Success RUnit)
            | _ => (w, Reverted (RequireFailed "Withdrawal failed"))
            end) as Hsweep.
  { unfold transact, transact_with. rewrite entry_EmergencyWithdraw.
    rewrite Hv, Hoe. change (0 =? 0) with true. cbv iota.
    destruct (call_value_total depth env (owner (store w)) (balance w) w)
      as (b & w' & ->).
    by destruct b. }
  split; [|split; [|split; [|split]]].
  - intros active. unfold transact, transact_with.
    rewrite entry_nonpayable by reflexivity. rewrite Hv.
    change (0 =? 0) with true. cbv iota. cbn [dispatch].
    unfold fmapM. unfold_sol. cbv beta iota zeta. by rewrite Hoe.
  - intros newFee. unfold transact, transact_with.
    rewrite entry_nonpayable by reflexivity. rewrite Hv.
    change (0 =? 0) with true. cbv iota. cbn [dispatch].
    unfold fmapM. unfold_sol. cbv beta iota zeta. by rewrite Hoe.
  - exact Hsweep.
  - intros d ->. rewrite Hsweep.
    pose proof (call_value_accepts d env (owner (store w)) (balance w) w)
      as Hacc.
    destruct (call_value (S d) env (owner (store w)) (balance w) w)
      as [[|] w1|f] eqn:Hc; cbn [call_ok] in Hacc.
    + split; [|by eauto]. intros _. by apply Hacc.
    + split; [by intros [? [=]]|]. intros Hs.
      assert (false = true) by (apply Hacc; split; [lia|done]). done.
    + destruct (call_value_total (S d) env (owner (store w)) (balance w) w)
        as (b & w1 & Hb).
      congruence.
  - intros Q d ->. rewrite Hsweep. cbn [call_value].
    assert ((balance w <=? balance w) = true) as -> by lia.
    destruct (Q env w (owner (store w)) (balance w)) as [-> | ->];
      reflexivity.
Qed.

(** ** The prize pool between draws *)

(** X20. Between draws the prize pool never goes down: a transaction
    carrying a non-negative amount leaves the pool at least as large as
    it was, unless a draw has been completed and recorded in the
    meantime (recipients, too, sending non-negative amounts when they
    call back).  When no recipient calls back, the one transaction that
    lowers the pool is a successful drawWinner, which empties it. *)
Theorem prizePool_grows_until_draw depth env c w :
  0 <= msg_value env ->
  (hooks_ok (fun env _ => 0 <= msg_value env) ->
   pool_kept w (step depth w (env, c))) /\
  (quiet ->
   prizePool (store w) <= prizePool (store (step depth w (env, c))) \/
   (c = DrawWinner /\ prizePool (store (step depth w (env, c))) = 0 /\
    exists r, snd (transact depth env c w) = Success r)).
Proof.
  intros Hv. split.
  { intros Hh. by apply step_pool_kept. }
  intros Q. unfold step. cbn [fst snd].
  destruct (transact depth env c w) as [w' [r|f]] eqn:Ht; cbn [fst snd].
  2:{ left. apply transact_reverted in Ht as ->. lia. }
  destruct c;
    try (left; apply transact_effect in Ht; cbn [effect] in Ht;
         rewrite Ht; cbn; lia).
  - left. apply transact_effect in Ht as (_ & _ & _ & _ & v & _ & ->).
    cbn. lia.
  - right. apply (draw_success_funded _ _ _ _ _ Q) in Ht as (_ & _ & ->).
    eauto.
  - left. apply transact_effect in Ht as [_ ->]. cbn. lia.
  - left. apply transact_effect in Ht as [_ ->]. cbn. lia.
  - left. apply transact_effect in Ht as [_ Hc].
    apply (call_value_quiet _ _ _ _ _ _ Q) in Hc as [_ ->]. cbn. lia.
  - left. apply transact_effect in Ht as [_ ->]. cbn. lia.
  - left. apply transact_effect in Ht as [_ ->]. cbn. lia.
Qed.

End Contract.

(** ** The scenario, run *)

Local Abbreviation transact' :=
  (transact Sample.keccak Sample.fromExternal_ok Sample.allowThis_ok
     Sample.allow_ok Sample.accept_all Sample.depth).

Local Abbreviation run' :=
  (run Sample.keccak Sample.fromExternal_ok Sample.allowThis_ok
     Sample.allow_ok Sample.accept_all Sample.depth).

Local Abbreviation step' :=
  (step Sample.keccak Sample.fromExternal_ok Sample.allowThis_ok
     Sample.allow_ok Sample.accept_all Sample.depth).

(** The same contract when its owner draws again while it is paid. *)
Local Abbreviation transact_again :=
  (transact Sample.keccak Sample.fromExternal_ok Sample.allowThis_ok
     Sample.allow_ok Sample.owner_draws_again Sample.depth).

Local Abbreviation run_again :=
  (run Sample.keccak Sample.fromExternal_ok Sample.allowThis_ok
     Sample.allow_ok Sample.owner_draws_again Sample.depth).

(** The same contract when its owner cannot receive ether. *)
Local Abbreviation transact_refused :=
  (transact Sample.keccak Sample.fromExternal_ok Sample.allowThis_ok
     Sample.allow_ok Sample.refuse_owner Sample.depth).

Lemma accept_all_quiet : quiet Sample.accept_all.
Proof. intros env w to v. by left. Qed.

Lemma refuse_owner_quiet : quiet Sample.refuse_owner.
Proof.
  intros env w to v. unfold Sample.refuse_owner.
  destruct (to =? Sample.deployer); [by right|by left].
Qed.

Lemma owner_draws_again_wf : wf_hooks Sample.owner_draws_again.
Proof.
  intros env w to v. unfold Sample.owner_draws_again.
  destruct ((to =? Sample.deployer)
            && (Z.of_nat (length (winners (store w))) =? 1)); [|exact I].
  split; [|intros; exact I].
  split; [|exact I]. vm_compute. split; discriminate.
Qed.

Lemma owner_draws_again_nonneg :
  hooks_ok Sample.owner_draws_again (fun env _ => 0 <= msg_value env).
Proof.
  intros env w to v. unfold Sample.owner_draws_again.
  destruct ((to =? Sample.deployer)
            && (Z.of_nat (length (winners (store w))) =? 1)); [|exact I].
  split; [|intros; exact I]. cbn. lia.
Qed.

Lemma scenario_entries : run' Sample.txs Sample.w0 = Sample.w2.
Proof. vm_compute. reflexivity. Qed.

Lemma scenario_first_entry :
  transact' (Sample.env_of Sample.alice Sample.fee) (EnterLottery 77 [])
    Sample.w0 = (Sample.w1, Success RUnit).
Proof. vm_compute. reflexivity. Qed.

Lemma scenario_second_entry :
  transact' (Sample.env_of Sample.bob (2 * Sample.fee)) (EnterLottery 88 [])
    Sample.w1 = (Sample.w2, Success RUnit).
Proof. vm_compute. reflexivity. Qed.

Lemma scenario_draw :
  transact' Sample.by_owner DrawWinner Sample.w2 =
    (Sample.w3, Success (RAddress Sample.bob)).
Proof. vm_compute. reflexivity. Qed.

Lemma scenario_pause :
  transact' Sample.by_owner (SetLotteryActive false) Sample.w2 =
    (Sample.w2_paused, Success RUnit).
Proof. vm_compute. reflexivity. Qed.

Lemma scenario_sweep :
  transact' Sample.by_owner EmergencyWithdraw Sample.w2 =
    (Sample.w2_swept, Success RUnit).
Proof. vm_compute. reflexivity. Qed.

Lemma scenario_fee :
  transact' Sample.by_owner (SetEntryFee 5) Sample.w2 =
    (Sample.w2_fee5, Success RUnit).
Proof. vm_compute. reflexivity. Qed.

Lemma scenario_owner_refuses :
  transact_refused Sample.by_owner DrawWinner Sample.w2 =
    (Sample.w2, Reverted (RequireFailed "Fee transfer to owner failed")).
Proof. vm_compute. reflexivity. Qed.

(** The stored handle was never granted to the contract: the draw stops
    at the permission step. *)
Lemma scenario_grant_refused :
  transact Sample.keccak Sample.fromExternal_ok Sample.allowThis_refused
    Sample.allow_ok Sample.accept_all Sample.depth
    Sample.by_owner DrawWinner Sample.w2 =
    (Sample.w2, Reverted PermissionRejected).
Proof. vm_compute. reflexivity. Qed.

(** The free lottery: one entry, nothing in the pool. *)
Lemma scenario_free_entries : run_again Sample.free_txs Sample.w0 = Sample.f2.
Proof. vm_compute. reflexivity. Qed.

(** The owner's draw of the free lottery, during which the owner, being
    paid its fee, draws again: two records, two rounds. *)
Lemma scenario_nested_draw :
  transact_again Sample.by_owner DrawWinner Sample.f2 =
    (Sample.f3, Success (RAddress Sample.alice)).
Proof. vm_compute. reflexivity. Qed.

(** Bob, paid his prize, sends 1000 wei back through receive: after
    the draw the contract holds more than the prize pool says. *)
Lemma scenario_winner_donates :
  transact Sample.keccak Sample.fromExternal_ok Sample.allowThis_ok
    Sample.allow_ok (Sample.winner_donates 1000) Sample.depth
    Sample.by_owner DrawWinner Sample.w2 =
    (Sample.w3_donated, Success (RAddress Sample.bob)) /\
  prizePool (store Sample.w3_donated) < balance Sample.w3_donated.
Proof. split; vm_compute; reflexivity. Qed.

(** The owner, paid its fee, pauses the lottery: the draw completes,
    and the lottery is inactive after it. *)
Lemma scenario_owner_pauses :
  transact Sample.keccak Sample.fromExternal_ok Sample.allowThis_ok
    Sample.allow_ok Sample.owner_pauses Sample.depth
    Sample.by_owner DrawWinner Sample.w2 =
    (Sample.w3_paused, Success (RAddress Sample.bob)).
Proof. vm_compute. reflexivity. Qed.

(** After the sweep, a donation of four times the pool makes the prize
    payable again, and Bob, paid his prize, returns what the owner's
    fee lacks: the draw goes through. *)
Lemma scenario_draw_after_sweep :
  snd (transact Sample.keccak Sample.fromExternal_ok Sample.allowThis_ok
         Sample.allow_ok (Sample.winner_donates (3 * Sample.fee)) Sample.depth
         Sample.by_owner DrawWinner
         (run Sample.keccak Sample.fromExternal_ok Sample.allowThis_ok
            Sample.allow_ok (Sample.winner_donates (3 * Sample.fee))
            Sample.depth
            [(Sample.env_of Sample.mallory (12 * Sample.fee), Receive)]
            Sample.w2_swept)) =
    Success (RAddress Sample.bob).
Proof. vm_compute. reflexivity. Qed.

Lemma scenario_txs_wf : Forall wf_tx Sample.txs.
Proof.
  repeat (apply List.Forall_cons;
          [split; [vm_compute; split; discriminate | exact I]|]).
  apply List.Forall_nil.
Qed.

Lemma scenario_later_txs_wf : Forall wf_tx Sample.later_txs.
Proof.
  repeat (apply List.Forall_cons;
          [split; [vm_compute; split; discriminate | exact I]|]).
  apply List.Forall_nil.
Qed.

Lemma scenario_free_txs_wf :
  Forall wf_tx (Sample.free_txs ++ [(Sample.by_owner, DrawWinner)]).
Proof.
  apply List.Forall_cons.
  { split; vm_compute; split; discriminate. }
  repeat (apply List.Forall_cons;
          [split; [vm_compute; split; discriminate | exact I]|]).
  apply List.Forall_nil.
Qed.

(** ** The theorems at the scenario *)

Lemma drawWinner_failed_payout_atomic_witness :
  draw_entry Sample.keccak Sample.by_owner (store Sample.w2)
    = Some Sample.entryB /\
  owner_transfer_ok Sample.keccak Sample.fromExternal_ok Sample.allowThis_ok
    Sample.allow_ok Sample.refuse_owner Sample.depth Sample.by_owner
    Sample.entryB Sample.w2 = false /\
  exists f,
    transact_refused Sample.by_owner DrawWinner Sample.w2 =
      (Sample.w2, Reverted f) /\
    (msg_value Sample.by_owner = 0 ->
     draw_admitted Sample.keccak Sample.allowThis_ok Sample.allow_ok
       Sample.by_owner Sample.entryB Sample.w2 = true ->
     f = RequireFailed
           (if winner_transfer_ok Sample.keccak Sample.fromExternal_ok
                 Sample.allowThis_ok Sample.allow_ok Sample.refuse_owner
                 Sample.depth Sample.by_owner Sample.entryB Sample.w2
            then "Fee transfer to owner failed"
            else "Prize transfer to winner failed")).
Proof.
  assert (draw_entry Sample.keccak Sample.by_owner (store Sample.w2)
          = Some Sample.entryB) as He by (vm_compute; reflexivity).
  assert (owner_transfer_ok Sample.keccak Sample.fromExternal_ok
            Sample.allowThis_ok Sample.allow_ok Sample.refuse_owner
            Sample.depth Sample.by_owner Sample.entryB Sample.w2 = false)
    as Hf by (vm_compute; reflexivity).
  split; [exact He|]. split; [exact Hf|].
  exact (drawWinner_failed_payout_atomic Sample.keccak Sample.fromExternal_ok
           Sample.allowThis_ok Sample.allow_ok Sample.refuse_owner
           Sample.depth Sample.by_owner Sample.entryB Sample.w2 He
           (or_intror Hf)).
Defined.



Lemma drawWinner_payout_split_witness :
  transact' Sample.by_owner DrawWinner Sample.w2 =
    (Sample.w3, Success (RAddress Sample.bob)) /\
  exists e inner1 inner2,
    draw_entry Sample.keccak Sample.by_owner (store Sample.w2) = Some e /\
    RAddress Sample.bob = RAddress (LotteryEntry.participant e) /\
    transfers Sample.w3 =
      transfers Sample.w2 ++
        [(LotteryEntry.participant e, prizePool (store Sample.w2) * 80 / 100)]
        ++ inner1 ++
        [(owner (store Sample.w2),
          prizePool (store Sample.w2) - prizePool (store Sample.w2) * 80 / 100)]
        ++ inner2 /\
    prizePool (store Sample.w2) * 80 / 100 +
      (prizePool (store Sample.w2) - prizePool (store Sample.w2) * 80 / 100) =
      prizePool (store Sample.w2) /\
    (quiet Sample.accept_all ->
     transfers Sample.w3 =
       transfers Sample.w2 ++
         [(LotteryEntry.participant e, prizePool (store Sample.w2) * 80 / 100);
          (owner (store Sample.w2),
           prizePool (store Sample.w2)
             - prizePool (store Sample.w2) * 80 / 100)] /\
     balance Sample.w3 = balance Sample.w2 - prizePool (store Sample.w2)).
Proof.
  split; [exact scenario_draw|].
  exact (drawWinner_payout_split _ _ _ _ _ _ _ _ _ _ scenario_draw).
Defined.

(** C4, as first stated, fails here: the lottery is free, Alice has
    entered, and the owner is a contract that calls drawWinner again
    while it is paid its fee.  The owner's draw succeeds and leaves no
    entry and an empty pool, but the round number has advanced by two:
    the draw made during the payout has completed a round of its own. *)
Lemma drawWinner_nested_counterexample :
  run_again Sample.free_txs (constructor Sample.by_owner) = Sample.f2 /\
  transact_again Sample.by_owner DrawWinner Sample.f2 =
    (Sample.f3, Success (RAddress Sample.alice)) /\
  Z.of_nat (length (entries (store Sample.f3))) = 0 /\
  prizePool (store Sample.f3) = 0 /\
  roundNumber (store Sample.f3) = roundNumber (store Sample.f2) + 2 /\
  roundNumber (store Sample.f3) <> roundNumber (store Sample.f2) + 1.
Proof.
  split; [exact scenario_free_entries|].
  split; [exact scenario_nested_draw|].
  repeat split; try (vm_compute; reflexivity). discriminate.
Qed.

Lemma drawWinner_resets_round_witness :
  transact_again Sample.by_owner DrawWinner Sample.f2 =
    (Sample.f3, Success (RAddress Sample.alice)) /\
  entries (store Sample.f3) = [] /\
  Z.of_nat (length (entries (store Sample.f3))) = 0 /\
  prizePool (store Sample.f3) = 0 /\
  roundNumber (store Sample.f3) =
    roundNumber (store Sample.f2) +
      (Z.of_nat (length (winners (store Sample.f3))) -
       Z.of_nat (length (winners (store Sample.f2)))) /\
  roundNumber (store Sample.f2) + 1 <= roundNumber (store Sample.f3) /\
  (quiet Sample.owner_draws_again ->
   roundNumber (store Sample.f3) = roundNumber (store Sample.f2) + 1).
Proof.
  split; [exact scenario_nested_draw|].
  exact (drawWinner_resets_round _ _ _ _ _ _ _ _ _ _ scenario_nested_draw).
Defined.

Lemma enterLottery_effects_witness :
  transact' (Sample.env_of Sample.bob (2 * Sample.fee)) (EnterLottery 88 [])
    Sample.w1 = (Sample.w2, Success RUnit) /\
  entriesOf (store Sample.w2) Sample.bob = entriesOf (store Sample.w1) Sample.bob + 1 /\
  prizePool (store Sample.w2) = prizePool (store Sample.w1) + 2 * Sample.fee /\
  balance Sample.w2 = balance Sample.w1 + 2 * Sample.fee /\
  transfers Sample.w2 = transfers Sample.w1.
Proof.
  split; [exact scenario_second_entry|].
  destruct (enterLottery_effects _ _ _ _ _ _ _ _ _ _ _ _ scenario_second_entry)
    as (_ & _ & _ & _ & Hn & _ & Hp & Hb & Ht).
  exact (conj Hn (conj Hp (conj Hb Ht))).
Defined.

Lemma rejected_calls_change_nothing_witness :
  guard_violated (Sample.env_of Sample.mallory 0) EmergencyWithdraw Sample.w2 /\
  exists f,
    transact' (Sample.env_of Sample.mallory 0) EmergencyWithdraw Sample.w2 =
      (Sample.w2, Reverted f).
Proof.
  assert (guard_violated (Sample.env_of Sample.mallory 0) EmergencyWithdraw
            Sample.w2) as Hg by (vm_compute; discriminate).
  split; [exact Hg|].
  exact (proj2 (rejected_calls_change_nothing Sample.keccak
                  Sample.fromExternal_ok Sample.allowThis_ok Sample.allow_ok
                  Sample.accept_all Sample.depth
                  (Sample.env_of Sample.mallory 0)
                  EmergencyWithdraw Sample.w2) Hg).
Defined.

Lemma participantEntries_monotone_witness :
  entriesOf (store Sample.w0) Sample.alice <=
    entriesOf (store (run' Sample.txs Sample.w0)) Sample.alice /\
  (forall a, entriesOf (store Sample.f2) a <= entriesOf (store Sample.f3) a) /\
  participantEntries (store Sample.w3) = participantEntries (store Sample.w2).
Proof.
  split; [|split].
  - exact (proj1 (participantEntries_monotone Sample.keccak
                    Sample.fromExternal_ok Sample.allowThis_ok Sample.allow_ok
                    Sample.accept_all)
             Sample.depth Sample.txs Sample.w0 Sample.alice).
  - exact (proj1 (proj2 (participantEntries_monotone Sample.keccak
                           Sample.fromExternal_ok Sample.allowThis_ok
                           Sample.allow_ok Sample.owner_draws_again)
                    _ _ _ _ _ scenario_nested_draw)).
  - exact (proj2 (proj2 (participantEntries_monotone Sample.keccak
                           Sample.fromExternal_ok Sample.allowThis_ok
                           Sample.allow_ok Sample.accept_all)
                    _ _ _ _ _ scenario_draw) accept_all_quiet).
Defined.

(** C8, as first stated, fails here: the owner changes the fee, the
    call succeeds and the event log is the one of before; no
    status-change event has been added. *)
Lemma setEntryFee_silent_counterexample :
  transact' Sample.by_owner (SetEntryFee 5) Sample.w2 =
    (Sample.w2_fee5, Success RUnit) /\
  events Sample.w2_fee5 = events Sample.w2 /\
  ~ exists b, LotteryStatusChanged b ∈ events Sample.w2_fee5.
Proof.
  split; [exact scenario_fee|]. split; [reflexivity|].
  intros [b Hb]. vm_compute in Hb.
  repeat (apply elem_of_cons in Hb as [Hb|Hb]; [discriminate Hb|]).
  by apply elem_of_nil in Hb.
Qed.

Lemma owner_setters_events_witness :
  transact' Sample.by_owner (SetEntryFee 5) Sample.w2 =
    (Sample.w2_fee5, Success RUnit) /\
  events Sample.w2_fee5 = events Sample.w2 /\
  entryFee (store Sample.w2_fee5) = 5.
Proof.
  split; [exact scenario_fee|].
  destruct (proj2 (owner_setters_events _ _ _ _ _ _ _ _ _ _) 5 scenario_fee)
    as (He & _ & Hfee & _).
  exact (conj He Hfee).
Defined.

(** C9, as first stated, fails here: Bob wins with the entry whose
    encrypted number is the handle 88; the record the draw appends
    carries 0, not that handle. *)
Lemma winner_record_counterexample :
  transact' Sample.by_owner DrawWinner Sample.w2 =
    (Sample.w3, Success (RAddress Sample.bob)) /\
  draw_entry Sample.keccak Sample.by_owner (store Sample.w2) = Some Sample.entryB /\
  winners (store Sample.w3) = winners (store Sample.w2) ++ [Sample.recordB] /\
  Winner.winningNumber Sample.recordB = 0 /\
  Winner.winningNumber Sample.recordB <> LotteryEntry.encryptedNumber Sample.entryB.
Proof.
  split; [exact scenario_draw|].
  repeat split; try (vm_compute; reflexivity). discriminate.
Qed.

Lemma winners_append_only_witness :
  transact' Sample.by_owner DrawWinner Sample.w2 =
    (Sample.w3, Success (RAddress Sample.bob)) /\
  exists e more,
    draw_entry Sample.keccak Sample.by_owner (store Sample.w2) = Some e /\
    e ∈ entries (store Sample.w2) /\
    RAddress Sample.bob = RAddress (LotteryEntry.participant e) /\
    winners (store Sample.w3) =
      winners (store Sample.w2) ++
        [Winner.mk (LotteryEntry.participant e)
           (prizePool (store Sample.w2) * 80 / 100) 0
           (block_timestamp Sample.by_owner)] ++ more /\
    (quiet Sample.accept_all -> more = []).
Proof.
  split; [exact scenario_draw|].
  exact (proj1 (winners_append_only Sample.keccak Sample.fromExternal_ok
                  Sample.allowThis_ok Sample.allow_ok Sample.accept_all)
           _ _ _ _ _ scenario_draw).
Defined.


(** ** The further properties at the scenario *)

Lemma drawWinner_failure_modes_witness :
  let f := RequireFailed "Fee transfer to owner failed" in
  (f = CallValueRejected \/
   f = RequireFailed "Only owner can call this function" \/
   f = RequireFailed "Lottery is not active" \/
   f = RequireFailed "No entries in lottery" \/
   f = PermissionRejected \/
   f = RequireFailed "Prize transfer to winner failed" \/
   f = RequireFailed "Fee transfer to owner failed" \/
   f = Panic 17) /\
  f <> Panic 50 /\ f <> Panic 18.
Proof.
  exact (drawWinner_failure_modes _ _ _ _ _ _ _ _ _ _ scenario_owner_refuses).
Defined.

Lemma revert_reasons_witness :
  transact' Sample.by_owner DrawWinner Sample.w2_paused =
    (Sample.w2_paused, Reverted (RequireFailed "Lottery is not active")).
Proof.
  apply (proj1 (proj2 (proj2 (proj2
           (revert_reasons Sample.keccak Sample.fromExternal_ok
              Sample.allowThis_ok Sample.allow_ok Sample.accept_all
              Sample.depth Sample.by_owner Sample.w2_paused)))));
    reflexivity.
Defined.

Lemma enterLottery_succeeds_iff_witness :
  exists w',
    transact' (Sample.env_of Sample.bob (2 * Sample.fee)) (EnterLottery 88 [])
      Sample.w1 = (w', Success RUnit).
Proof.
  apply (proj2 (enterLottery_succeeds_iff Sample.keccak Sample.fromExternal_ok
                  Sample.allowThis_ok Sample.allow_ok Sample.accept_all
                  Sample.depth
                  (Sample.env_of Sample.bob (2 * Sample.fee)) 88 [] Sample.w1)).
  repeat split; try (vm_compute; reflexivity); try (vm_compute; discriminate).
  by eexists.
Defined.

Lemma donation_effects_witness :
  transact' (Sample.env_of Sample.mallory 5) Receive Sample.w2_paused =
    (mkWorld
       (set_prizePool (prizePool (store Sample.w2_paused) + 5)
          (store Sample.w2_paused))
       (balance Sample.w2_paused + 5) (events Sample.w2_paused)
       (transfers Sample.w2_paused),
     Success RUnit).
Proof.
  apply (proj1 (donation_effects Sample.keccak Sample.fromExternal_ok
                  Sample.allowThis_ok Sample.allow_ok Sample.accept_all
                  Sample.depth
                  (Sample.env_of Sample.mallory 5) Receive Sample.w2_paused
                  (or_introl eq_refl))).
  vm_compute. discriminate.
Defined.

Lemma drawWinner_marks_winner_witness :
  (exists e, e ∈ entries (store Sample.w2) /\
             LotteryEntry.participant e = Sample.bob) /\
  1 <= round_entries_of (store Sample.w2) Sample.bob /\
  hasParticipantWon Sample.bob Sample.w3 = Ok true Sample.w3 /\
  (forall b, wonOf (store Sample.w2) b = true ->
             wonOf (store Sample.w3) b = true) /\
  (quiet Sample.accept_all ->
   forall b, b <> Sample.bob ->
     wonOf (store Sample.w3) b = wonOf (store Sample.w2) b).
Proof.
  exact (drawWinner_marks_winner _ _ _ _ _ _ _ _ _ _ scenario_draw).
Defined.

Lemma hasWon_persistent_witness :
  wonOf (store (run' Sample.txs Sample.w3)) Sample.bob = true.
Proof.
  apply hasWon_persistent. vm_compute. reflexivity.
Defined.

Lemma getLastWinner_spec_witness :
  exists b,
    getLastWinner Sample.w3 = Ok b Sample.w3 /\
    (length (winners (store Sample.w3)) = S (length (winners (store Sample.w2)))
     -> b = Sample.bob) /\
    (quiet Sample.accept_all -> b = Sample.bob).
Proof.
  exact (proj2 (proj2 (getLastWinner_spec Sample.keccak Sample.fromExternal_ok
                         Sample.allowThis_ok Sample.allow_ok Sample.accept_all))
           _ _ _ _ _ scenario_draw).
Defined.

Lemma non_owner_limits_witness :
  transfers (step' Sample.w2 (Sample.env_of Sample.mallory 0, EmergencyWithdraw))
    = transfers Sample.w2.
Proof.
  apply (non_owner_limits Sample.keccak Sample.fromExternal_ok
           Sample.allowThis_ok Sample.allow_ok Sample.accept_all
           Sample.depth
           (Sample.env_of Sample.mallory 0) EmergencyWithdraw Sample.w2).
  vm_compute. discriminate.
Defined.

Lemma second_draw_rejected_witness :
  (transact' Sample.by_owner DrawWinner Sample.w3 =
     (Sample.w3,
      Reverted (RequireFailed
                  (if isActive (store Sample.w3)
                   then "No entries in lottery"
                   else "Lottery is not active"))) /\
   (quiet Sample.accept_all -> isActive (store Sample.w3) = true)) /\
  transact Sample.keccak Sample.fromExternal_ok Sample.allowThis_ok
    Sample.allow_ok Sample.owner_pauses Sample.depth
    Sample.by_owner DrawWinner Sample.w3_paused =
    (Sample.w3_paused,
     Reverted (RequireFailed
                 (if isActive (store Sample.w3_paused)
                  then "No entries in lottery"
                  else "Lottery is not active"))).
Proof.
  split.
  - apply (second_draw_rejected _ _ _ _ _ _ _ _ _ _ _ _ scenario_draw);
      reflexivity.
  - apply (second_draw_rejected _ _ _ _ _ _ _ _ _ _ _ _ scenario_owner_pauses);
      reflexivity.
Defined.

Lemma balance_tracks_prizePool_witness :
  0 <= balance (run' Sample.txs (constructor Sample.by_owner))
    <= prizePool (store (run' Sample.txs (constructor Sample.by_owner))) /\
  (forallb (fun tx => negb (is_sweep tx)) Sample.txs = true ->
   balance (run' Sample.txs (constructor Sample.by_owner)) =
     prizePool (store (run' Sample.txs (constructor Sample.by_owner)))).
Proof.
  exact (balance_tracks_prizePool Sample.keccak Sample.fromExternal_ok
           Sample.allowThis_ok Sample.allow_ok Sample.accept_all
           Sample.depth Sample.by_owner Sample.txs
           accept_all_quiet scenario_txs_wf).
Defined.

Lemma sweep_blocks_draws_witness :
  underfunded (run' Sample.later_txs Sample.w2_swept) /\
  exists f,
    transact' Sample.by_owner DrawWinner (run' Sample.later_txs Sample.w2_swept)
      = (run' Sample.later_txs Sample.w2_swept, Reverted f).
Proof.
  apply (sweep_blocks_draws _ _ _ _ _ _ _ _ _ _ _ _ accept_all_quiet
           scenario_sweep).
  - vm_compute. reflexivity.
  - exact scenario_later_txs_wf.
Defined.

Lemma storage_stays_in_range_witness :
  storage_in_range
    (store (run_again (Sample.free_txs ++ [(Sample.by_owner, DrawWinner)])
              (constructor Sample.by_owner))).
Proof.
  exact (storage_stays_in_range Sample.keccak Sample.fromExternal_ok
           Sample.allowThis_ok Sample.allow_ok Sample.owner_draws_again
           Sample.depth Sample.by_owner
           (Sample.free_txs ++ [(Sample.by_owner, DrawWinner)])
           owner_draws_again_wf scenario_free_txs_wf).
Defined.

Lemma drawWinner_rounding_witness :
  exists a p f inner1 inner2,
    RAddress Sample.bob = RAddress a /\
    transfers Sample.w3 =
      transfers Sample.w2 ++ [(a, p)] ++ inner1 ++
        [(owner (store Sample.w2), f)] ++ inner2 /\
    (quiet Sample.accept_all ->
     transfers Sample.w3 =
       transfers Sample.w2 ++ [(a, p); (owner (store Sample.w2), f)]) /\
    (100 * p <= 80 * prizePool (store Sample.w2) < 100 * p + 100) /\
    (20 * prizePool (store Sample.w2) <= 100 * f
       < 20 * prizePool (store Sample.w2) + 100) /\
    (prizePool (store Sample.w2) mod 5 = 0 ->
     5 * p = 4 * prizePool (store Sample.w2) /\
     5 * f = prizePool (store Sample.w2)) /\
    (prizePool (store Sample.w2) = 1 -> p = 0 /\ f = 1).
Proof.
  exact (drawWinner_rounding _ _ _ _ _ _ _ _ _ _ scenario_draw).
Defined.

Lemma events_of_transactions_witness :
  (exists a inner,
     RAddress Sample.alice = RAddress a /\
     events Sample.f3 =
       events Sample.f2 ++ inner ++
         [WinnerDrawn a (prizePool (store Sample.f2) * 80 / 100) 0
            (roundNumber (store Sample.f3) - 1);
          LotteryReset (roundNumber (store Sample.f3))] /\
     (quiet Sample.owner_draws_again ->
      inner = [] /\
      roundNumber (store Sample.f3) - 1 = roundNumber (store Sample.f2))) /\
  events Sample.w2_fee5 = events Sample.w2 ++ [].
Proof.
  destruct (events_of_transactions Sample.keccak Sample.fromExternal_ok
              Sample.allowThis_ok Sample.allow_ok Sample.owner_draws_again
              Sample.depth) as (_ & _ & Hdraw & _).
  destruct (events_of_transactions Sample.keccak Sample.fromExternal_ok
              Sample.allowThis_ok Sample.allow_ok Sample.accept_all
              Sample.depth) as (Hown & _).
  split.
  - exact (Hdraw _ _ _ _ scenario_nested_draw).
  - exact (Hown Sample.by_owner (SetEntryFee 5) Sample.w2 Sample.w2_fee5
             (Success RUnit) eq_refl scenario_fee).
Defined.

Lemma draw_preimage_faithful_witness :
  draw_preimage Sample.now 100 0 2 Sample.deployer <>
    draw_preimage Sample.now 100 0 2 Sample.mallory.
Proof.
  intros Heq.
  apply (proj2 (proj2 (proj2 (draw_preimage_faithful Sample.keccak)))) in Heq
    as (_ & _ & _ & _ & Hs).
  - discriminate Hs.
  - unfold is_uint256, MAX_UINT256. vm_compute. split; discriminate.
  - unfold is_uint256, MAX_UINT256. vm_compute. split; discriminate.
  - unfold is_uint256, MAX_UINT256. vm_compute. split; discriminate.
  - unfold is_uint256, MAX_UINT256. vm_compute. split; discriminate.
  - unfold is_address. vm_compute. split; [discriminate|reflexivity].
  - unfold is_uint256, MAX_UINT256. vm_compute. split; discriminate.
  - unfold is_uint256, MAX_UINT256. vm_compute. split; discriminate.
  - unfold is_uint256, MAX_UINT256. vm_compute. split; discriminate.
  - unfold is_uint256, MAX_UINT256. vm_compute. split; discriminate.
  - unfold is_address. vm_compute. split; [discriminate|reflexivity].
Defined.

Lemma owner_functions_succeed_witness :
  transact' Sample.by_owner (SetEntryFee 0) Sample.w2_paused =
    (fee_changed 0 Sample.w2_paused, Success RUnit) /\
  transact_refused Sample.by_owner EmergencyWithdraw Sample.w2 =
    match Sample.refuse_owner Sample.by_owner Sample.w2
            (owner (store Sample.w2)) (balance Sample.w2) with
    | Accept =>
        (debit (owner (store Sample.w2)) (balance Sample.w2) Sample.w2,
         Success RUnit)
    | _ => (Sample.w2, Reverted (RequireFailed "Withdrawal failed"))
    end.
Proof.
  split.
  - apply (owner_functions_succeed Sample.keccak Sample.fromExternal_ok
             Sample.allowThis_ok Sample.allow_ok Sample.accept_all
             Sample.depth Sample.by_owner Sample.w2_paused); reflexivity.
  - destruct (owner_functions_succeed Sample.keccak Sample.fromExternal_ok
                Sample.allowThis_ok Sample.allow_ok Sample.refuse_owner
                Sample.depth Sample.by_owner Sample.w2 eq_refl eq_refl)
      as (_ & _ & _ & _ & Hq).
    exact (Hq refuse_owner_quiet 7%nat eq_refl).
Defined.

Lemma prizePool_grows_until_draw_witness :
  pool_kept Sample.f2
    (step Sample.keccak Sample.fromExternal_ok Sample.allowThis_ok
       Sample.allow_ok Sample.owner_draws_again Sample.depth Sample.f2
       (Sample.by_owner, DrawWinner)) /\
  (prizePool (store Sample.w2) <=
     prizePool (store (step' Sample.w2 (Sample.env_of Sample.bob 7, Receive)))
   \/
   (Receive = DrawWinner /\
    prizePool (store (step' Sample.w2 (Sample.env_of Sample.bob 7, Receive)))
      = 0 /\
    exists r, snd (transact' (Sample.env_of Sample.bob 7) Receive Sample.w2)
              = Success r)).
Proof.
  split.
  - apply (prizePool_grows_until_draw Sample.keccak Sample.fromExternal_ok
             Sample.allowThis_ok Sample.allow_ok Sample.owner_draws_again
             Sample.depth Sample.by_owner DrawWinner Sample.f2).
    + vm_compute. discriminate.
    + exact owner_draws_again_nonneg.
  - apply (prizePool_grows_until_draw Sample.keccak Sample.fromExternal_ok
             Sample.allowThis_ok Sample.allow_ok Sample.accept_all
             Sample.depth (Sample.env_of Sample.bob 7) Receive Sample.w2).
    + vm_compute. discriminate.
    + exact accept_all_quiet.
Defined.
